(** * HealthChatbot: a shallow embedding of [chatbothealth.py]

    The development follows the layout of the Python module:
    string primitives, the FAQ store ([load_faq]), the greeting helper
    ([maybe_greet]), the three live data fetchers, the TF-IDF matcher
    ([faq_response]) and the intent router ([handle_user_message]).

    Modelling conventions.
    - A Python [str] is a [string]; its characters are the bytes of the
      text.  [isspace], [lower] and the regular-expression classes are
      exact on the ASCII range; a byte above 127 is a caseless character
      that is neither white space nor a word character, which is not
      what Python does with the character it encodes.  A statement whose
      truth depends on that carries the hypothesis [ascii_only].
    - A Python exception is a value [Raise e] of the [result] type;
      [try: ... except Exception: return s] is [try_except].
    - Library calls whose result the module only consumes
      ([requests.get], the TF-IDF/cosine pipeline of scikit-learn,
      [numpy.argsort], [random.choice], [str()] of a decoded JSON value,
      [datetime.fromtimestamp(..).strftime(..)]) are section variables.
    - A similarity score is a rational number: every finite float is one,
      and float comparison is the comparison of the represented values. *)

From Stdlib Require Import List Bool Arith ZArith QArith Lia Lqa Ascii String.
Import ListNotations.
Close Scope Q_scope.
Open Scope string_scope.

(* ===================================================================== *)
(** ** Exceptions *)

Inductive exn : Type :=
| RequestException   (* requests: connection error, timeout, ... *)
| JSONDecodeError    (* r.json() on a body that is not JSON *)
| ParseError         (* ET.fromstring on a body that is not XML *)
| AttributeError
| TypeError
| IndexError
| ValueError
| OverflowError.

Inductive result (A : Type) : Type :=
| Ok (a : A)
| Raise (e : exn).
Arguments Ok {A} a.
Arguments Raise {A} e.

Definition bind {A B : Type} (m : result A) (k : A -> result B) : result B :=
  match m with
  | Ok a => k a
  | Raise e => Raise e
  end.

Notation "x <- m ;; k" := (bind m (fun x => k))
  (at level 61, m at next level, right associativity).

(** [try: body / except Exception: return fallback] *)
Definition try_except {A : Type} (body : result A) (fallback : A) : A :=
  match body with
  | Ok a => a
  | Raise _ => fallback
  end.

Fixpoint mapM {A B : Type} (f : A -> result B) (l : list A) : result (list B) :=
  match l with
  | [] => Ok []
  | a :: l' => b <- f a ;; bs <- mapM f l' ;; Ok (b :: bs)
  end.

(** [l[i]] for a non-negative index *)
Definition index {A : Type} (l : list A) (i : nat) : result A :=
  match nth_error l i with
  | Some a => Ok a
  | None => Raise IndexError
  end.

(** [l[-1]] *)
Definition index_last {A : Type} (l : list A) : result A :=
  match rev l with
  | a :: _ => Ok a
  | [] => Raise IndexError
  end.

(* ===================================================================== *)
(** ** Python string primitives *)

Definition nl : string := String (ascii_of_nat 10) "".

Definition in_range (lo hi : nat) (c : ascii) : bool :=
  Nat.leb lo (nat_of_ascii c) && Nat.leb (nat_of_ascii c) hi.

(** [c.isspace()]: TAB LF VT FF CR, FS GS RS US, SPACE *)
Definition isspace (c : ascii) : bool :=
  in_range 9 13 c || in_range 28 32 c.

Definition is_upper (c : ascii) : bool := in_range 65 90 c.
Definition is_lower (c : ascii) : bool := in_range 97 122 c.
Definition is_digit (c : ascii) : bool := in_range 48 57 c.

Definition lower_char (c : ascii) : ascii :=
  if is_upper c then ascii_of_nat (nat_of_ascii c + 32) else c.

(** [s.lower()] *)
Fixpoint lower (s : string) : string :=
  match s with
  | "" => ""
  | String c s' => String (lower_char c) (lower s')
  end.

Fixpoint lstrip (s : string) : string :=
  match s with
  | "" => ""
  | String c s' => if isspace c then lstrip s' else s
  end.

Fixpoint rstrip (s : string) : string :=
  match s with
  | "" => ""
  | String c s' =>
      match rstrip s' with
      | "" => if isspace c then "" else String c ""
      | r => String c r
      end
  end.

(** [s.strip()] *)
Definition strip (s : string) : string := rstrip (lstrip s).

(** [s.split()]: the scanning loop; [tok] is the token read so far. *)
Fixpoint split_from (tok : string) (s : string) : list string :=
  match s with
  | "" => match tok with "" => [] | _ => [tok] end
  | String c s' =>
      if isspace c then
        match tok with
        | "" => split_from "" s'
        | _ => tok :: split_from "" s'
        end
      else split_from (tok ++ String c "") s'
  end.

Definition split (s : string) : list string := split_from "" s.

(** [sub in s] *)
Fixpoint contains (sub s : string) : bool :=
  prefix sub s ||
  match s with
  | "" => false
  | String _ s' => contains sub s'
  end.

(** [s.replace(old, new)] for a non-empty [old]: a left-to-right scan
    replacing non-overlapping occurrences; [skip] counts the characters
    of the occurrence just replaced that are still to be passed over. *)
Fixpoint replace_from (skip : nat) (old new s : string) : string :=
  match s with
  | "" => ""
  | String c s' =>
      match skip with
      | S k => replace_from k old new s'
      | O =>
          if prefix old s
          then new ++ replace_from (String.length old - 1) old new s'
          else String c (replace_from 0 old new s')
      end
  end.

Definition replace (old new s : string) : string := replace_from 0 old new s.

(** [sep.join(l)] *)
Fixpoint join (sep : string) (l : list string) : string :=
  match l with
  | [] => ""
  | [x] => x
  | x :: l' => x ++ sep ++ join sep l'
  end.

(** [x in tup] for a tuple of strings *)
Definition str_in (x : string) (tup : list string) : bool :=
  existsb (String.eqb x) tup.

(** truth value of a string *)
Definition nonempty (s : string) : bool :=
  match s with "" => false | _ => true end.

(* ===================================================================== *)
(** ** Regular expressions of the shape [\b( atoms )\b] *)

Inductive atom : Type :=
| Digit              (* \d *)
| Lit (c : ascii).   (* a literal character *)

Definition atom_matches (a : atom) (c : ascii) : bool :=
  match a with
  | Digit => is_digit c
  | Lit c' => Ascii.eqb c c'
  end.

(** \w *)
Definition is_word (c : ascii) : bool :=
  is_digit c || is_lower c || is_upper c || Ascii.eqb c "_"%char.

Definition is_word_opt (c : option ascii) : bool :=
  match c with Some c => is_word c | None => false end.

(** \b between the character before and the character after a position *)
Definition word_boundary (prev next : option ascii) : bool :=
  xorb (is_word_opt prev) (is_word_opt next).

Definition head_char (s : string) : option ascii :=
  match s with "" => None | String c _ => Some c end.

(** Match the atoms at the start of [s]: the matched text, its last
    character (or [prev] when nothing was consumed) and the rest. *)
Fixpoint match_atoms (pat : list atom) (prev : option ascii) (s : string)
  : option (string * option ascii * string) :=
  match pat with
  | [] => Some ("", prev, s)
  | a :: pat' =>
      match s with
      | "" => None
      | String c s' =>
          if atom_matches a c then
            match match_atoms pat' (Some c) s' with
            | Some (m, lastc, rest) => Some (String c m, lastc, rest)
            | None => None
            end
          else None
      end
  end.

Definition match_here (pat : list atom) (prev : option ascii) (s : string)
  : option string :=
  if word_boundary prev (head_char s) then
    match match_atoms pat prev s with
    | Some (m, lastc, rest) =>
        if word_boundary lastc (head_char rest) then Some m else None
    | None => None
    end
  else None.

(** The leftmost match, scanning with the previous character at hand. *)
Fixpoint search_from (pat : list atom) (prev : option ascii) (s : string)
  : option string :=
  match match_here pat prev s with
  | Some m => Some m
  | None =>
      match s with
      | "" => None
      | String c s' => search_from pat (Some c) s'
      end
  end.

(** [re.search(r"\b(pat)\b", text)] with [.group(1)] of the match *)
Definition re_search (pat : list atom) (text : string) : option string :=
  search_from pat None text.

(** [\d{6}] *)
Definition PIN_RE : list atom := repeat Digit 6.

(** [\d{2}-\d{2}-\d{4}] *)
Definition DATE_RE : list atom :=
  [Digit; Digit; Lit "-"; Digit; Digit; Lit "-"; Digit; Digit; Digit; Digit].

(* ===================================================================== *)
(** ** FAQ store *)

(** The even indices [range(0, n, 2)] *)
Definition range_step2 (n : nat) : list nat :=
  map (fun k => 2 * k) (seq 0 (Nat.div2 (n + 1))).

(** The loop of [load_faq] over the non-blank, stripped lines:
    [for i in range(0, len(lines), 2): if i + 1 < len(lines): ...] *)
Definition faq_loop (lines : list string) : list (string * string) :=
  flat_map
    (fun i =>
       if Nat.ltb (i + 1) (List.length lines) then
         match nth_error lines i, nth_error lines (i + 1) with
         | Some li, Some li1 =>
             let q := lower (strip (replace "Q:" "" li)) in
             let a := strip (replace "A:" "" li1) in
             [(q, a)]
         | _, _ => []
         end
       else [])
    (range_step2 (List.length lines)).

(** [load_faq]: [file] is [None] when the path does not exist, and
    otherwise the lines the file iterator yields. *)
Definition load_faq (file : option (list string)) : list (string * string) :=
  match file with
  | None => []
  | Some f =>
      let lines := map strip (filter (fun line => nonempty (strip line)) f) in
      faq_loop lines
  end.

Definition questions (faq_pairs : list (string * string)) : list string :=
  map fst faq_pairs.

Definition answers (faq_pairs : list (string * string)) : list string :=
  map snd faq_pairs.

(* ===================================================================== *)
(** ** Greeting helpers *)

Definition GREET_IN : list string :=
  ["hello"; "hi"; "hey"; "namaste"; "whassup"; "how are you?"].

Definition GREET_OUT : list string :=
  ["Hello!"; "Hi there!"; "Hey!"; "Namaste!"].

(** [random.choice(seq)] driven by the draw [rnd] of the random source *)
Definition random_choice (rnd : nat) (l : list string) : string :=
  nth (rnd mod List.length l) l "".

Fixpoint greet_loop (rnd : nat) (ws : list string) : option string :=
  match ws with
  | [] => None
  | w :: ws' =>
      if str_in (lower w) GREET_IN then Some (random_choice rnd GREET_OUT)
      else greet_loop rnd ws'
  end.

(** [maybe_greet] (lines 65-69) *)
Definition maybe_greet (rnd : nat) (txt : string) : option string :=
  greet_loop rnd (split txt).

(* ===================================================================== *)
(** ** Decoded payloads *)

(** A value returned by [r.json()] *)
#[warnings="-register-all"]
Inductive JSON : Type :=
| JNull
| JBool (b : bool)
| JInt (z : Z)
| JFloat (q : Q)
| JStr (s : string)
| JList (l : list JSON)
| JDict (items : list (string * JSON)).

Fixpoint assoc (key : string) (items : list (string * JSON)) : option JSON :=
  match items with
  | [] => None
  | (k, v) :: items' => if String.eqb k key then Some v else assoc key items'
  end.

(** [j.get(key, default)]: only a dict has the method *)
Definition py_get (j : JSON) (key : string) (default : JSON) : result JSON :=
  match j with
  | JDict items =>
      Ok (match assoc key items with Some v => v | None => default end)
  | _ => Raise AttributeError
  end.

(** truth value of a decoded value *)
Definition truthy (j : JSON) : bool :=
  match j with
  | JNull => false
  | JBool b => b
  | JInt z => negb (Z.eqb z 0)
  | JFloat q => negb (Qeq_bool q 0)
  | JStr s => nonempty s
  | JList l => match l with [] => false | _ => true end
  | JDict items => match items with [] => false | _ => true end
  end.

(** [x / 1000] *)
Definition div1000 (j : JSON) : result Q :=
  match j with
  | JInt z => Ok (Qdiv (inject_Z z) (inject_Z 1000))
  | JFloat q => Ok (Qdiv q (inject_Z 1000))
  | JBool b => Ok (Qdiv (inject_Z (if b then 1 else 0)) (inject_Z 1000))
  | _ => Raise TypeError
  end.

(** [data[:n]] followed by iteration *)
Definition py_slice (n : nat) (data : JSON) : result (list JSON) :=
  match data with
  | JList l => Ok (firstn n l)
  | JStr s =>
      Ok (map (fun c => JStr (String c "")) (firstn n (list_ascii_of_string s)))
  | _ => Raise TypeError
  end.

(** An [xml.etree.ElementTree.Element] *)
#[warnings="-register-all"]
Inductive Element : Type :=
| Elem (tag : string) (text : option string) (children : list Element).

Definition tag_of (e : Element) : string :=
  match e with Elem t _ _ => t end.
Definition text_of (e : Element) : option string :=
  match e with Elem _ t _ => t end.
Definition children_of (e : Element) : list Element :=
  match e with Elem _ _ c => c end.

(** [e.findall(tag)]: the direct children with that tag, in document order *)
Definition findall (tag : string) (e : Element) : list Element :=
  filter (fun c => String.eqb (tag_of c) tag) (children_of e).

(** [e.find(tag)]: the first of them *)
Definition find (tag : string) (e : Element) : option Element :=
  hd_error (findall tag e).

(** The response object [r]: [r.status_code], the outcome of [r.json()]
    and the outcome of [ET.fromstring(r.content)]. *)
Record Response : Type := {
  status_code : Z;
  json : result JSON;
  xml : result Element
}.

(* ===================================================================== *)
(** ** CONFIG *)

Definition USER_AGENT : list (string * string) :=
  [("User-Agent", "Mozilla/5.0 (compatible; HealthBot/1.0)")].

Definition TIMEOUT : Z := 10.

Definition COVID_URL : string :=
  "https://disease.sh/v3/covid-19/countries/india".
Definition WHO_URL : string :=
  "https://www.who.int/feeds/entity/csr/don/en/rss.xml".
Definition COWIN_URL (pincode date_ddmmyyyy : string) : string :=
  "https://cdn-api.co-vin.in/api/v2/appointment/sessions/public/findByPin?pincode="
  ++ pincode ++ "&date=" ++ date_ddmmyyyy.

Definition BULLET : string := "â€¢".

Definition COVID_UNAVAILABLE : string :=
  "Live COVID update is temporarily unavailable.".
Definition WHO_UNAVAILABLE : string :=
  "WHO outbreak feed is unavailable right now.".
Definition WHO_HEADER : string :=
  "ðŸ†˜ WHO Disease Outbreak News:" ++ nl.
Definition WHO_NO_ITEMS : string :=
  "No current outbreak items from WHO.".
Definition SLOT_UNAVAILABLE : string :=
  "Vaccination slot service is temporarily unavailable.".
Definition SLOT_NONE : string :=
  "No vaccination slots found for the given PIN and date.".
Definition SLOT_USAGE : string :=
  "To check vaccination slots, send: 'Check slots PINCODE DATE' (e.g., 'Check slots 700001 31-08-2025').".
Definition PROMPT : string := "Please type your question.".
Definition GREET_SUFFIX : string :=
  " Ask me about symptoms, prevention, vaccines, or outbreaks.".
Definition APOLOGY : string :=
  "Sorry, I donâ€™t have that information yet. Please consult a healthcare professional.".

(** The threshold [0.35]: the double nearest to 35/100 *)
Definition THRESHOLD : Q := Qmake 3152519739159347 9007199254740992.

(* ===================================================================== *)
(** ** The matcher's index arithmetic *)

Definition Qltb (x y : Q) : bool := negb (Qle_bool y x).

(** The score at an index, [0] out of range (used in statements only) *)
Definition score_at (sims : list Q) (i : nat) : Q := nth i sims (inject_Z 0).

(** What [argsort] promises of its answer [perm] for the row [sims]:
    every index of the row occurs in [perm], [perm] holds indices of the
    row only, and the scores read along [perm] never decrease. *)
Fixpoint ascending (sims : list Q) (perm : list nat) : bool :=
  match perm with
  | i :: ((j :: _) as perm') =>
      Qle_bool (score_at sims i) (score_at sims j) && ascending sims perm'
  | _ => true
  end.

Definition is_argsort (sims : list Q) (perm : list nat) : bool :=
  forallb (fun i => existsb (Nat.eqb i) perm) (seq 0 (List.length sims))
  && forallb (fun i => Nat.ltb i (List.length sims)) perm
  && ascending sims perm.

(** One order that keeps the promise of [argsort], used as data in the
    examples: the stable one, where the indices are taken in turn and
    each is placed after every index whose score is not greater.  It is
    not the order of [numpy.argsort], whose default sort gives no
    promise on equal scores. *)
Fixpoint insert_index (sims : list Q) (i : nat) (sorted : list nat) : list nat :=
  match sorted with
  | [] => [i]
  | j :: sorted' =>
      if Qltb (score_at sims i) (score_at sims j) then i :: j :: sorted'
      else j :: insert_index sims i sorted'
  end.

Definition argsort_stable (sims : list Q) : list nat :=
  fold_left (fun sorted i => insert_index sims i sorted)
            (seq 0 (List.length sims)) [].

(** The maximum of a row (used in statements only) *)
Definition max_step (m y : Q) : Q := if Qltb m y then y else m.

Definition max_score (sims : list Q) : Q :=
  match sims with
  | [] => inject_Z 0
  | x :: xs => fold_left max_step xs x
  end.

(** [if x:] on an optional string: [None] and the empty string are false *)
Definition if_truthy (o : option string) : option string :=
  match o with
  | Some s => if nonempty s then Some s else None
  | None => None
  end.

(* ===================================================================== *)
(** ** The program over its libraries *)

Section Bot.

(** [requests.get(url, headers=.., timeout=..)] *)
Variable requests_get :
  string -> list (string * string) -> Z -> result Response.
(** [str(v)] of a decoded value that is not a string *)
Variable py_repr : JSON -> string.
(** [datetime.fromtimestamp(t).strftime("%d-%b-%Y %H:%M")] *)
Variable fromtimestamp_strftime : Q -> result string.
(** [cosine_similarity(tfidf[-1], tfidf[:-1])] after
    [TfidfVectorizer(tokenizer=LemNormalize, stop_words='english')
     .fit_transform(questions + [user_text])]:
    the one row of scores, or the exception the vectorizer raises *)
Variable tfidf_cosine : list string -> string -> result (list Q).
(** [sims.argsort()[0]] *)
Variable argsort : list Q -> list nat.
(** the draw of the random source *)
Variable rnd : nat.

(** [{v}] inside an f-string *)
Definition fmt (v : JSON) : string :=
  match v with
  | JStr s => s
  | _ => py_repr v
  end.

(** [get_covid_update_india] (lines 74-95) *)
Definition get_covid_update_india : string :=
  let url := COVID_URL in
  try_except
    (r <- requests_get url USER_AGENT TIMEOUT ;;
     if negb (Z.eqb (status_code r) 200) then Ok COVID_UNAVAILABLE
     else
       j <- json r ;;
       today_cases <- py_get j "todayCases" (JStr "N/A") ;;
       today_deaths <- py_get j "todayDeaths" (JStr "N/A") ;;
       total_cases <- py_get j "cases" (JStr "N/A") ;;
       updated <- py_get j "updated" JNull ;;
       when <- (if truthy updated
                then t <- div1000 updated ;; fromtimestamp_strftime t
                else Ok "N/A") ;;
       Ok ("ðŸ‡®ðŸ‡³ India COVID Update:" ++ nl ++
           BULLET ++ " New cases today: " ++ fmt today_cases ++ nl ++
           BULLET ++ " New deaths today: " ++ fmt today_deaths ++ nl ++
           BULLET ++ " Total cases: " ++ fmt total_cases ++ nl ++
           "(Last updated: " ++ when ++ ")"))
    COVID_UNAVAILABLE.

(** One pass of the loop over [items[:limit]]: the bulleted title, when
    the item has a [title] child with a non-empty text. *)
Definition title_line (it : Element) : list string :=
  let t := match find "title" it with
           | Some e => text_of e
           | None => None
           end in
  match if_truthy t with
  | Some t => [BULLET ++ " " ++ t]
  | None => []
  end.

(** [get_who_outbreak_headlines] (lines 97-120) *)
Definition get_who_outbreak_headlines (limit : nat) : string :=
  let url := WHO_URL in
  try_except
    (r <- requests_get url USER_AGENT TIMEOUT ;;
     if negb (Z.eqb (status_code r) 200) then Ok WHO_UNAVAILABLE
     else
       root <- xml r ;;
       let channel := find "channel" root in
       let items := match channel with
                    | Some ch => findall "item" ch
                    | None => []
                    end in
       match items with
       | [] => Ok WHO_NO_ITEMS
       | _ =>
           let titles := flat_map title_line (firstn limit items) in
           Ok (match titles with
               | [] => WHO_NO_ITEMS
               | _ => WHO_HEADER ++ join nl titles
               end)
       end)
    WHO_UNAVAILABLE.

Definition slot_line (s : JSON) : result string :=
  name <- py_get s "name" (JStr "Center") ;;
  vaccine <- py_get s "vaccine" (JStr "Vaccine") ;;
  min_age <- py_get s "min_age_limit" (JStr "-") ;;
  dose1 <- py_get s "available_capacity_dose1" (JStr "-") ;;
  dose2 <- py_get s "available_capacity_dose2" (JStr "-") ;;
  Ok (BULLET ++ " " ++ fmt name ++ " | " ++ fmt vaccine ++ " | " ++
      "Min Age: " ++ fmt min_age ++ " | Dose1: " ++ fmt dose1 ++ " | " ++
      "Dose2: " ++ fmt dose2).

(** [get_cowin_slots_by_pin] (lines 122-144) *)
Definition get_cowin_slots_by_pin (pincode date_ddmmyyyy : string) : string :=
  let url := COWIN_URL pincode date_ddmmyyyy in
  try_except
    (r <- requests_get url USER_AGENT TIMEOUT ;;
     if negb (Z.eqb (status_code r) 200) then Ok SLOT_UNAVAILABLE
     else
       j <- json r ;;
       data <- py_get j "sessions" (JList []) ;;
       if negb (truthy data) then Ok SLOT_NONE
       else
         sessions <- py_slice 10 data ;;
         lines <- mapM slot_line sessions ;;
         Ok (join nl ("ðŸ’‰ Available Vaccination Slots:" :: lines)))
    SLOT_UNAVAILABLE.

(** [faq_response] (lines 149-163): [None] is the no-match answer. *)
Definition faq_response (faq_pairs : list (string * string))
           (user_text : string) (threshold : Q) : result (option string) :=
  match questions faq_pairs with
  | [] => Ok None
  | _ =>
      let user_text := strip (lower user_text) in
      sims <- tfidf_cosine (questions faq_pairs) user_text ;;
      idx <- index_last (argsort sims) ;;
      score <- index sims idx ;;
      if Qltb score threshold then Ok None
      else a <- index (answers faq_pairs) idx ;; Ok (Some a)
  end.

(** [handle_user_message] (lines 165-199): the decision list, first
    match wins. *)
Definition handle_user_message (faq_pairs : list (string * string))
           (user_msg : string) : result string :=
  if negb (nonempty user_msg) then Ok PROMPT
  else
    match if_truthy (maybe_greet rnd user_msg) with
    | Some g => Ok (g ++ GREET_SUFFIX)
    | None =>
        let text := strip (lower user_msg) in
        if contains "covid" text || contains "corona" text
        then Ok get_covid_update_india
        else if contains "who" text
                && (contains "outbreak" text || contains "news" text
                    || contains "alert" text)
        then Ok (get_who_outbreak_headlines 5)
        else if (contains "vaccination" text || contains "vaccine" text)
                && (contains "slot" text || contains "available" text
                    || contains "pin" text)
        then
          let pin_match := re_search PIN_RE text in
          let date_match := re_search DATE_RE text in
          match pin_match, date_match with
          | Some pin, Some date => Ok (get_cowin_slots_by_pin pin date)
          | _, _ => Ok SLOT_USAGE
          end
        else
          ans <- faq_response faq_pairs text THRESHOLD ;;
          match if_truthy ans with
          | Some a => Ok a
          | None => Ok APOLOGY
          end
    end.

End Bot.

(* ===================================================================== *)
(** ** NLTK preprocessing *)

(** A character of [string.punctuation] *)
Definition is_punct (c : ascii) : bool :=
  in_range 33 47 c || in_range 58 64 c || in_range 91 96 c
  || in_range 123 126 c.

(** [s.translate(remove_punc_dict)]: every punctuation character is
    dropped, nothing is put in its place. *)
Fixpoint remove_punc (s : string) : string :=
  match s with
  | "" => ""
  | String c s' =>
      if is_punct c then remove_punc s' else String c (remove_punc s')
  end.

Section Nltk.

(** [nltk.word_tokenize] *)
Variable word_tokenize : string -> list string.
(** [lemmer.lemmatize] *)
Variable lemmatize : string -> string.

(** [LemTokens] (lines 54-55) *)
Definition LemTokens (tokens : list string) : list string :=
  map lemmatize tokens.

(** [LemNormalize] (lines 57-58) *)
Definition LemNormalize (text : string) : list string :=
  LemTokens (word_tokenize (remove_punc (lower text))).

End Nltk.

(* ===================================================================== *)
(** ** Routes *)

(** The request as the routes read it: the outcome of
    [request.get_json(force=True)] and the fields of [request.form]. *)
Record Request : Type := {
  get_json : result JSON;
  form : list (string * string)
}.

(** [request.form.get(key, default)] *)
Fixpoint form_get (fields : list (string * string)) (key default : string)
  : string :=
  match fields with
  | [] => default
  | (k, v) :: fields' =>
      if String.eqb k key then v else form_get fields' key default
  end.

Section Routes.

Variable requests_get :
  string -> list (string * string) -> Z -> result Response.
Variable py_repr : JSON -> string.
Variable fromtimestamp_strftime : Q -> result string.
Variable tfidf_cosine : list string -> string -> result (list Q).
Variable argsort : list Q -> list nat.
Variable rnd : nat.
(** [str(tw)] after [tw.message(reply)] on a fresh [MessagingResponse] *)
Variable twiml : string -> string.
(** the corpus loaded at start-up *)
Variable faq_pairs : list (string * string).

(** [handle_user_message] on whatever value the JSON body held under
    ["message"]: a false value is answered with the prompt, a string is
    routed, and any other value has no [split] method. *)
Definition handle_user_message_value (msg : JSON) : result string :=
  if negb (truthy msg) then Ok PROMPT
  else
    match msg with
    | JStr s =>
        handle_user_message requests_get py_repr fromtimestamp_strftime
                            tfidf_cosine argsort rnd faq_pairs s
    | _ => Raise AttributeError
    end.

(** [get_reply] (lines 209-218); the answer is the document handed to
    [jsonify]. *)
Definition get_reply (request : Request) : result JSON :=
  let msg :=
    try_except
      (payload <- get_json request ;;
       py_get payload "message" (JStr ""))
      (JStr (form_get (form request) "message" "")) in
  reply <- handle_user_message_value msg ;;
  Ok (JDict [("reply", JStr reply)]).

(** [whatsapp_reply] (lines 221-227) *)
Definition whatsapp_reply (request : Request) : result string :=
  let user_message := form_get (form request) "Body" "" in
  reply <- handle_user_message requests_get py_repr fromtimestamp_strftime
                               tfidf_cosine argsort rnd faq_pairs user_message ;;
  Ok (twiml reply).

End Routes.

(* ===================================================================== *)
(** ** Data for the examples *)

(** A corpus of two pairs. *)
Definition demo_pairs : list (string * string) :=
  [("what is flu?", "A viral infection."); ("what is a cold?", "A mild one.")].

(** An ascending order that puts the first of the tied maxima last: the
    stable order read backwards among equal scores. *)
Definition first_tied_last (sims : list Q) : list nat :=
  fold_right (fun i sorted => insert_index sims i sorted) []
             (seq 0 (List.length sims)).

(** A similarity pipeline that answers the row [sims] for every query. *)
Definition const_scores (sims : list Q)
  : list string -> string -> result (list Q) :=
  fun _ _ => Ok sims.

(** No network: every outbound call raises. *)
Definition offline : string -> list (string * string) -> Z -> result Response :=
  fun _ _ _ => Raise RequestException.

(** Placeholders for the library functions an example never reaches. *)
Definition no_repr : JSON -> string := fun _ => "".
Definition no_clock : Q -> result string := fun _ => Raise OverflowError.
Definition no_scores : list string -> string -> result (list Q) :=
  fun _ _ => Raise ValueError.

(** An item of a feed with the given title. *)
Definition demo_item (title : string) : Element :=
  Elem "item" None [Elem "title" (Some title) []; Elem "link" (Some "https://www.who.int/") []].

(** A feed of seven items, the second without a title text. *)
Definition demo_feed : Element :=
  Elem "rss" None
    [Elem "channel" None
       [Elem "title" (Some "Disease Outbreak News") [];
        demo_item "Cholera"; Elem "item" None [Elem "title" None []];
        demo_item "Mpox"; demo_item "Measles"; demo_item "Dengue";
        demo_item "Polio"; demo_item "Ebola"]].

(** Every call is answered with status 200 and the given decodings. *)
Definition answering (j : result JSON) (x : result Element)
  : string -> list (string * string) -> Z -> result Response :=
  fun _ _ _ => Ok {| status_code := 200; json := j; xml := x |}.

(* ===================================================================== *)
(** ** Vocabulary of the statements *)

(** The items of a parsed feed: the [item] children of its [channel]. *)
Definition feed_items (root : Element) : list Element :=
  match find "channel" root with
  | Some ch => findall "item" ch
  | None => []
  end.

(** The title of an item: the text of its first [title] child, when that
    text is there and not empty. *)
Definition item_title (it : Element) : option string :=
  match find "title" it with
  | Some e => if_truthy (text_of e)
  | None => None
  end.

Definition titles_of (items : list Element) : list string :=
  flat_map (fun it => match item_title it with Some t => [t] | None => [] end)
           items.

Definition is_dict (j : JSON) : bool :=
  match j with JDict _ => true | _ => false end.

(** The body of a response cannot be used: it does not decode, or it
    decodes to something that is not an object. *)
Definition json_malformed (r : Response) : Prop :=
  (exists e, json r = Raise e) \/ (exists j, json r = Ok j /\ is_dict j = false).

Definition xml_malformed (r : Response) : Prop :=
  exists e, xml r = Raise e.

(** The outcomes of an outbound call that are failures: the call raised
    (time-out, network error), the status is not 200, or the payload is
    malformed. *)
Inductive bad_outcome (malformed : Response -> Prop) : result Response -> Prop :=
| bad_raise (e : exn) : bad_outcome malformed (Raise e)
| bad_status (r : Response) :
    status_code r <> 200%Z -> bad_outcome malformed (Ok r)
| bad_payload (r : Response) :
    status_code r = 200%Z -> malformed r -> bad_outcome malformed (Ok r).

(** The text is made of one character per atom, each matching its atom. *)
Fixpoint has_shape (pat : list atom) (m : string) : bool :=
  match pat, m with
  | [], "" => true
  | a :: pat', String c m' => atom_matches a c && has_shape pat' m'
  | _, _ => false
  end.

(** The string is white space only. *)
Fixpoint all_space (s : string) : bool :=
  match s with
  | "" => true
  | String c s' => isspace c && all_space s'
  end.

(** A text with no white space around it: [strip] leaves it alone. *)
Definition tidy (t : string) : Prop :=
  match t with
  | "" => False
  | String c _ => isspace c = false
  end /\ rstrip t = t.

(** A line of the FAQ source carrying [text]: white space around it, and
    before it, optionally, the two-character marker and more white space.
    The text itself holds no occurrence of the marker. *)
Inductive marked_line (marker : string) (text : string) : string -> Prop :=
| line_plain (lead trail : string) :
    all_space lead = true -> all_space trail = true ->
    marked_line marker text (lead ++ text ++ trail)
| line_marked (lead gap trail : string) :
    all_space lead = true -> all_space gap = true -> all_space trail = true ->
    marked_line marker text (lead ++ marker ++ gap ++ text ++ trail).

(** A well-formed FAQ source and the pairs it holds, in order: question
    line, answer line, with blank lines anywhere. *)
Inductive faq_source : list string -> list (string * string) -> Prop :=
| source_end : faq_source [] []
| source_blank (line : string) (f : list string) (ps : list (string * string)) :
    all_space line = true -> faq_source f ps -> faq_source (line :: f) ps
| source_pair (ql al q a : string) (blanks f : list string)
              (ps : list (string * string)) :
    tidy q -> contains "Q:" q = false -> marked_line "Q:" q ql ->
    Forall (fun b => all_space b = true) blanks ->
    tidy a -> contains "A:" a = false -> marked_line "A:" a al ->
    faq_source f ps ->
    faq_source (ql :: blanks ++ al :: f) ((q, a) :: ps).

(** The string holds no white-space character. *)
Fixpoint no_space (s : string) : bool :=
  match s with
  | "" => true
  | String c s' => negb (isspace c) && no_space s'
  end.

(** The last character of [s], or [d] when [s] is empty. *)
Fixpoint last_or (d : option ascii) (s : string) : option ascii :=
  match s with
  | "" => d
  | String c s' => last_or (Some c) s'
  end.

(** Every character of the text is an ASCII character. *)
Fixpoint ascii_only (s : string) : bool :=
  match s with
  | "" => true
  | String c s' => Nat.ltb (nat_of_ascii c) 128 && ascii_only s'
  end.

(** [m] stands in [text] between [pre] and [post], has the shape of the
    pattern, and has a word boundary at each end. *)
Definition occurs_at (pat : list atom) (text pre m post : string) : Prop :=
  text = pre ++ m ++ post
  /\ has_shape pat m = true
  /\ word_boundary (last_or None pre) (head_char (m ++ post)) = true
  /\ word_boundary (last_or (last_or None pre) m) (head_char post) = true.

(** [m] is the occurrence of the pattern that starts first in [text]. *)
Definition leftmost_occurrence (pat : list atom) (text m : string) : Prop :=
  exists pre post,
    occurs_at pat text pre m post
    /\ forall pre' m' post',
         occurs_at pat text pre' m' post' ->
         String.length pre <= String.length pre'.

(** The pattern occurs nowhere in [text]. *)
Definition no_occurrence (pat : list atom) (text : string) : Prop :=
  forall pre m post, ~ occurs_at pat text pre m post.

(** The message gets past every keyword branch of the router. *)
Definition reaches_faq (rnd : nat) (msg : string) : bool :=
  nonempty msg
  && match if_truthy (maybe_greet rnd msg) with Some _ => false | None => true end
  && negb (contains "covid" (strip (lower msg))
           || contains "corona" (strip (lower msg)))
  && negb (contains "who" (strip (lower msg))
           && (contains "outbreak" (strip (lower msg))
               || contains "news" (strip (lower msg))
               || contains "alert" (strip (lower msg))))
  && negb ((contains "vaccination" (strip (lower msg))
            || contains "vaccine" (strip (lower msg)))
           && (contains "slot" (strip (lower msg))
               || contains "available" (strip (lower msg))
               || contains "pin" (strip (lower msg)))).

(** The first line of the slot listing and of the COVID summary. *)
Definition SLOT_HEADER : string := "ðŸ’‰ Available Vaccination Slots:".
Definition COVID_HEADER : string := "ðŸ‡®ðŸ‡³ India COVID Update:".

(** The string is punctuation only. *)
Fixpoint all_punct (s : string) : bool :=
  match s with
  | "" => true
  | String c s' => is_punct c && all_punct s'
  end.

(* ===================================================================== *)
(** * Properties *)

(** ** Rational comparisons *)

Lemma Qltb_lt (x y : Q) : Qltb x y = true <-> (x < y)%Q.
Proof.
  unfold Qltb. rewrite negb_true_iff. split; intro H.
  - apply Qnot_le_lt. intro H'. apply Qle_bool_iff in H'. congruence.
  - destruct (Qle_bool y x) eqn:E; [|reflexivity].
    apply Qle_bool_iff in E. exfalso. exact (Qlt_not_le _ _ H E).
Qed.

Lemma Qltb_ge (x y : Q) : Qltb x y = false <-> (y <= x)%Q.
Proof.
  unfold Qltb. rewrite negb_false_iff. apply Qle_bool_iff.
Qed.

(** ** Lists read from the end *)

Lemma index_last_app {A : Type} (l : list A) (x : A) :
  index_last (l ++ [x]) = Ok x.
Proof. unfold index_last. rewrite rev_unit. reflexivity. Qed.

Lemma index_last_last {A : Type} (l : list A) (d : A) :
  l <> [] -> index_last l = Ok (last l d).
Proof.
  intro H. rewrite (app_removelast_last d H) at 1. apply index_last_app.
Qed.

Lemma index_Ok {A : Type} (l : list A) (i : nat) (a : A) :
  index l i = Ok a <-> nth_error l i = Some a.
Proof.
  unfold index. destruct (nth_error l i); split; intro H;
    try discriminate; congruence.
Qed.

Lemma index_score_at (sims : list Q) (i : nat) :
  i < List.length sims -> index sims i = Ok (score_at sims i).
Proof.
  intro H. apply index_Ok. unfold score_at. apply nth_error_nth'. exact H.
Qed.

(** ** The maximum of a row *)

Lemma fold_max_ge_init (xs : list Q) (x : Q) :
  (x <= fold_left max_step xs x)%Q.
Proof.
  revert x. induction xs as [|y xs IH]; intro x; simpl.
  - apply Qle_refl.
  - eapply Qle_trans; [|apply IH]. unfold max_step.
    destruct (Qltb x y) eqn:E.
    + apply Qltb_lt in E. apply Qlt_le_weak, E.
    + apply Qle_refl.
Qed.

Lemma fold_max_ge_in (xs : list Q) (x y : Q) :
  In y xs -> (y <= fold_left max_step xs x)%Q.
Proof.
  revert x. induction xs as [|z xs IH]; intros x Hin; simpl in *.
  - contradiction.
  - destruct Hin as [->|Hin]; [|apply IH, Hin].
    eapply Qle_trans; [|apply fold_max_ge_init]. unfold max_step.
    destruct (Qltb x y) eqn:E.
    + apply Qle_refl.
    + apply Qltb_ge, E.
Qed.

Lemma fold_max_in (xs : list Q) (x : Q) :
  fold_left max_step xs x = x \/ In (fold_left max_step xs x) xs.
Proof.
  revert x. induction xs as [|z xs IH]; intro x; simpl.
  - left; reflexivity.
  - destruct (IH (max_step x z)) as [H|H].
    + rewrite H. unfold max_step. destruct (Qltb x z); auto.
    + right; right; exact H.
Qed.

Lemma max_score_ge (sims : list Q) (y : Q) :
  In y sims -> (y <= max_score sims)%Q.
Proof.
  destruct sims as [|x xs]; simpl; [contradiction|].
  intros [->|H].
  - apply fold_max_ge_init.
  - apply fold_max_ge_in, H.
Qed.

Lemma max_score_in (sims : list Q) :
  sims <> [] -> In (max_score sims) sims.
Proof.
  destruct sims as [|x xs]; [congruence|]. intros _. simpl.
  destruct (fold_max_in xs x) as [H|H]; [left; symmetry; exact H|right; exact H].
Qed.

Lemma score_at_in (sims : list Q) (i : nat) :
  i < List.length sims -> In (score_at sims i) sims.
Proof. intro H. unfold score_at. apply nth_In, H. Qed.

(** An index whose score bounds every score of the row carries the
    maximum. *)
Lemma top_index_max_score (sims : list Q) (idx : nat) :
  idx < List.length sims ->
  (forall j, j < List.length sims -> (score_at sims j <= score_at sims idx)%Q) ->
  (score_at sims idx == max_score sims)%Q.
Proof.
  intros Hidx Htop. apply Qle_antisym.
  - apply max_score_ge, score_at_in, Hidx.
  - assert (Hne : sims <> []) by (destruct sims; simpl in *; [lia|congruence]).
    destruct (In_nth _ _ (inject_Z 0) (max_score_in sims Hne)) as (k & Hk & Hnth).
    fold (score_at sims k) in Hnth. rewrite <- Hnth. apply Htop, Hk.
Qed.

(** ** What the contract of [argsort] gives *)

Lemma ascending_last (sims : list Q) (l : list nat) (x : nat) :
  ascending sims (l ++ [x]) = true ->
  forall j, In j (l ++ [x]) -> (score_at sims j <= score_at sims x)%Q.
Proof.
  induction l as [|a l IH]; intros Hasc j Hin.
  - destruct Hin as [<-|[]]. apply Qle_refl.
  - change ((a :: l) ++ [x])%list with (a :: (l ++ [x]))%list in *.
    destruct (l ++ [x])%list as [|b t] eqn:E.
    + destruct l; discriminate.
    + simpl in Hasc. apply andb_true_iff in Hasc as [Hab Hasc].
      apply Qle_bool_iff in Hab.
      destruct Hin as [<-|Hin].
      * eapply Qle_trans; [exact Hab|]. apply IH; [exact Hasc|left; reflexivity].
      * apply IH; assumption.
Qed.

Lemma argsort_top (sims : list Q) (perm : list nat) :
  sims <> [] ->
  is_argsort sims perm = true ->
  exists idx,
    index_last perm = Ok idx /\
    idx < List.length sims /\
    forall j, j < List.length sims -> (score_at sims j <= score_at sims idx)%Q.
Proof.
  intros Hne H. unfold is_argsort in H.
  apply andb_true_iff in H as [H Hasc]. apply andb_true_iff in H as [Hall Hrng].
  rewrite forallb_forall in Hall, Hrng.
  assert (Hmem : forall j, j < List.length sims -> In j perm).
  { intros j Hj. specialize (Hall j). rewrite in_seq in Hall.
    assert (Hex : existsb (Nat.eqb j) perm = true) by (apply Hall; lia).
    apply existsb_exists in Hex as (x & Hx & Heq).
    apply Nat.eqb_eq in Heq. subst x. exact Hx. }
  assert (Hp : perm <> []).
  { intro Hp. subst perm. destruct sims; [congruence|].
    apply (Hmem 0). simpl. lia. }
  exists (last perm 0). split; [apply index_last_last, Hp|].
  rewrite (app_removelast_last 0 Hp) in Hasc, Hmem, Hrng.
  split.
  - apply Nat.ltb_lt, Hrng, in_or_app. right; left; reflexivity.
  - intros j Hj. eapply ascending_last; [exact Hasc|]. apply Hmem, Hj.
Qed.

(** ** The matcher *)

Lemma questions_length (fp : list (string * string)) :
  List.length (questions fp) = List.length fp.
Proof. apply length_map. Qed.

Lemma answers_length (fp : list (string * string)) :
  List.length (answers fp) = List.length fp.
Proof. apply length_map. Qed.

Lemma questions_answers_nth (fp : list (string * string)) (i : nat) (q a : string) :
  nth_error fp i = Some (q, a) <->
  nth_error (questions fp) i = Some q /\ nth_error (answers fp) i = Some a.
Proof.
  unfold questions, answers. rewrite !nth_error_map.
  destruct (nth_error fp i) as [[q' a']|]; simpl; split.
  - intro H; inversion H; auto.
  - intros [H1 H2]; congruence.
  - discriminate.
  - intros [H _]; discriminate.
Qed.

(** The run of [faq_response] once the row of scores and the index that
    [argsort] puts last are known. *)
Lemma faq_response_scored
      (tfidf_cosine : list string -> string -> result (list Q))
      (argsort : list Q -> list nat)
      (fp : list (string * string)) (text : string) (thr : Q)
      (sims : list Q) (idx : nat) :
  questions fp <> [] ->
  tfidf_cosine (questions fp) (strip (lower text)) = Ok sims ->
  index_last (argsort sims) = Ok idx ->
  idx < List.length sims ->
  faq_response tfidf_cosine argsort fp text thr =
    if Qltb (score_at sims idx) thr then Ok None
    else a <- index (answers fp) idx ;; Ok (Some a).
Proof.
  intros Hq Hsims Hlast Hidx. unfold faq_response.
  destruct (questions fp) as [|q0 qs] eqn:E; [congruence|].
  rewrite Hsims. simpl. rewrite Hlast. simpl.
  rewrite (index_score_at _ _ Hidx). reflexivity.
Qed.

(** C7.  With an empty FAQ corpus the matcher answers no-match for every
    query, threshold and behaviour of the libraries: the similarity
    pipeline is never consulted, so even one that always raises cannot
    make the matcher raise. *)
Theorem faq_response_empty_corpus
        (tfidf_cosine : list string -> string -> result (list Q))
        (argsort : list Q -> list nat) (text : string) (thr : Q) :
  faq_response tfidf_cosine argsort (load_faq None) text thr = Ok None
  /\ faq_response tfidf_cosine argsort [] text thr = Ok None
  /\ faq_response (fun _ _ => Raise ValueError) (fun _ => []) [] text thr
     = Ok None.
Proof. repeat split. Qed.

(** C1 (amended).  For a non-empty corpus whose row of scores is sorted by
    [argsort] as promised, the matcher answers no-match exactly when the
    maximum score is strictly below the threshold; a maximum at or above
    the threshold, the threshold itself included, returns the answer
    stored at an index carrying that maximum. *)
Theorem faq_response_threshold
        (tfidf_cosine : list string -> string -> result (list Q))
        (argsort : list Q -> list nat)
        (fp : list (string * string)) (text : string) (thr : Q)
        (sims : list Q) :
  questions fp <> [] ->
  tfidf_cosine (questions fp) (strip (lower text)) = Ok sims ->
  List.length sims = List.length (questions fp) ->
  is_argsort sims (argsort sims) = true ->
  (faq_response tfidf_cosine argsort fp text thr = Ok None
   <-> (max_score sims < thr)%Q)
  /\ ((thr <= max_score sims)%Q ->
      exists idx a,
        (score_at sims idx == max_score sims)%Q /\
        nth_error (answers fp) idx = Some a /\
        faq_response tfidf_cosine argsort fp text thr = Ok (Some a)).
Proof.
  intros Hq Hsims Hlen Hsort.
  assert (Hne : sims <> []).
  { intro E. subst sims. simpl in Hlen. destruct (questions fp); [congruence|discriminate]. }
  destruct (argsort_top sims (argsort sims) Hne Hsort) as (idx & Hlast & Hidx & Htop).
  pose proof (top_index_max_score sims idx Hidx Htop) as Hmax.
  rewrite (faq_response_scored _ _ _ _ thr sims idx Hq Hsims Hlast Hidx).
  assert (Hans : exists a, nth_error (answers fp) idx = Some a).
  { destruct (nth_error (answers fp) idx) as [a|] eqn:E; [eauto|].
    apply nth_error_None in E. rewrite answers_length, <- questions_length in E. lia. }
  destruct Hans as (a & Ha).
  assert (Hix : index (answers fp) idx = Ok a) by (apply index_Ok, Ha).
  destruct (Qltb (score_at sims idx) thr) eqn:E.
  - apply Qltb_lt in E. split.
    + split; [intros _; lra|reflexivity].
    + intro Hge. lra.
  - apply Qltb_ge in E. rewrite Hix. simpl. split.
    + split; [discriminate|intro Hlt; lra].
    + intros _. exists idx, a. auto.
Qed.

Lemma faq_response_threshold_witness :
  faq_response (const_scores [THRESHOLD; Qmake 1 10]) argsort_stable
               demo_pairs "What is flu?" THRESHOLD = Ok None
  <-> (max_score [THRESHOLD; Qmake 1 10] < THRESHOLD)%Q.
Proof.
  apply (faq_response_threshold (const_scores [THRESHOLD; Qmake 1 10])
           argsort_stable demo_pairs "What is flu?" THRESHOLD
           [THRESHOLD; Qmake 1 10]).
  - discriminate.
  - reflexivity.
  - reflexivity.
  - vm_compute. reflexivity.
Defined.

(** C1, as stated, fails: a query whose maximum score equals the
    threshold is answered, not rejected. *)
Lemma faq_response_at_threshold_matches :
  (max_score [THRESHOLD; Qmake 1 10] == THRESHOLD)%Q /\
  is_argsort [THRESHOLD; Qmake 1 10]
             (argsort_stable [THRESHOLD; Qmake 1 10]) = true /\
  faq_response (const_scores [THRESHOLD; Qmake 1 10]) argsort_stable
               demo_pairs "What is flu?" THRESHOLD
  = Ok (Some "A viral infection.") /\
  faq_response (const_scores [THRESHOLD; Qmake 1 10]) argsort_stable
               demo_pairs "What is flu?" THRESHOLD
  <> Ok None.
Proof.
  split; [reflexivity|]. split; [vm_compute; reflexivity|].
  split; [vm_compute; reflexivity|]. vm_compute. discriminate.
Qed.

(** C6.  The questions and the answers are two projections of the one
    list of pairs: equally long and aligned index by index; and an answer
    the matcher returns is the one stored at the index of a question
    whose score no other score exceeds. *)
Theorem faq_response_answer_aligned
        (tfidf_cosine : list string -> string -> result (list Q))
        (argsort : list Q -> list nat)
        (fp : list (string * string)) (text : string) (thr : Q)
        (sims : list Q) (a : string) :
  tfidf_cosine (questions fp) (strip (lower text)) = Ok sims ->
  List.length sims = List.length (questions fp) ->
  is_argsort sims (argsort sims) = true ->
  faq_response tfidf_cosine argsort fp text thr = Ok (Some a) ->
  List.length (questions fp) = List.length (answers fp)
  /\ (forall i q' a',
        nth_error fp i = Some (q', a') <->
        nth_error (questions fp) i = Some q' /\
        nth_error (answers fp) i = Some a')
  /\ exists idx q,
       nth_error fp idx = Some (q, a) /\
       nth_error (questions fp) idx = Some q /\
       nth_error (answers fp) idx = Some a /\
       (score_at sims idx == max_score sims)%Q /\
       forall j, j < List.length sims ->
                 (score_at sims j <= score_at sims idx)%Q.
Proof.
  intros Hsims Hlen Hsort Hres.
  split; [rewrite questions_length, answers_length; reflexivity|].
  split; [intros; apply questions_answers_nth|].
  assert (Hq : questions fp <> []).
  { intro E. unfold faq_response in Hres. rewrite E in Hres. discriminate. }
  assert (Hne : sims <> []).
  { intro E. subst sims. simpl in Hlen. destruct (questions fp); [congruence|discriminate]. }
  destruct (argsort_top sims (argsort sims) Hne Hsort) as (idx & Hlast & Hidx & Htop).
  rewrite (faq_response_scored _ _ _ _ thr sims idx Hq Hsims Hlast Hidx) in Hres.
  destruct (Qltb (score_at sims idx) thr); [discriminate|].
  destruct (index (answers fp) idx) as [a0|e] eqn:E; simpl in Hres; [|discriminate].
  inversion Hres; subst a0. apply index_Ok in E.
  destruct (nth_error (questions fp) idx) as [q|] eqn:Eq.
  - exists idx, q. split; [apply questions_answers_nth; auto|].
    repeat split; auto. apply top_index_max_score; assumption.
  - apply nth_error_None in Eq. lia.
Qed.

Lemma faq_response_answer_aligned_witness :
  exists idx q,
    nth_error demo_pairs idx = Some (q, "A mild one.") /\
    nth_error (questions demo_pairs) idx = Some q /\
    nth_error (answers demo_pairs) idx = Some "A mild one." /\
    (score_at [Qmake 1 5; Qmake 4 5] idx == max_score [Qmake 1 5; Qmake 4 5])%Q /\
    forall j, j < 2 ->
      (score_at [Qmake 1 5; Qmake 4 5] j <= score_at [Qmake 1 5; Qmake 4 5] idx)%Q.
Proof.
  apply (faq_response_answer_aligned (const_scores [Qmake 1 5; Qmake 4 5])
           argsort_stable demo_pairs "what is a cold" THRESHOLD
           [Qmake 1 5; Qmake 4 5] "A mild one.").
  - reflexivity.
  - reflexivity.
  - vm_compute. reflexivity.
  - vm_compute. reflexivity.
Defined.

(** ** The stable argsort *)

Lemma insert_index_in (sims : list Q) (i : nat) (l : list nat) (j : nat) :
  In j (insert_index sims i l) <-> j = i \/ In j l.
Proof.
  induction l as [|x l IH]; simpl.
  - intuition.
  - destruct (Qltb (score_at sims i) (score_at sims x)); simpl.
    + intuition.
    + rewrite IH. intuition.
Qed.

Lemma insert_index_nonempty (sims : list Q) (i : nat) (l : list nat) :
  insert_index sims i l <> [].
Proof.
  destruct l as [|x l]; simpl; [discriminate|].
  destruct (Qltb _ _); discriminate.
Qed.

Lemma last_cons_nonempty {A : Type} (x : A) (l : list A) (d : A) :
  l <> [] -> last (x :: l) d = last l d.
Proof. destruct l; [congruence|reflexivity]. Qed.

(** Where the inserted index ends up decides the last entry: it stays
    unless no entry has a strictly greater score. *)
Lemma insert_index_last (sims : list Q) (i : nat) (l : list nat) (d : nat) :
  last (insert_index sims i l) d =
    if existsb (fun j => Qltb (score_at sims i) (score_at sims j)) l
    then last l d else i.
Proof.
  induction l as [|x l IH]; [reflexivity|].
  cbn [insert_index existsb].
  destruct (Qltb (score_at sims i) (score_at sims x)) eqn:E.
  - reflexivity.
  - cbn [orb]. rewrite last_cons_nonempty by apply insert_index_nonempty.
    rewrite IH.
    destruct (existsb _ l) eqn:Ex; [|reflexivity].
    symmetry. apply last_cons_nonempty. intro Hl. subst l. discriminate.
Qed.

Lemma stable_prefix_inv (sims : list Q) (k : nat) :
  let l := fold_left (fun sorted i => insert_index sims i sorted) (seq 0 k) [] in
  (forall j, In j l <-> j < k) /\
  (0 < k ->
   (forall j, j < k -> (score_at sims j <= score_at sims (last l 0%nat))%Q) /\
   (forall j, j < k ->
              (score_at sims (last l 0%nat) <= score_at sims j)%Q -> j <= last l 0)).
Proof.
  induction k as [|k IH]; cbv zeta.
  - simpl. split; [intro j; split; [contradiction|lia]|lia].
  - rewrite seq_S, fold_left_app. cbn [fold_left Nat.add].
    cbv zeta in IH.
    set (l := fold_left (fun sorted i => insert_index sims i sorted) (seq 0 k) []) in *.
    destruct IH as [Hmem Hinv].
    split.
    + intro j. rewrite insert_index_in, Hmem. lia.
    + intros _. rewrite insert_index_last.
      destruct (existsb _ l) eqn:Ex.
      * apply existsb_exists in Ex as (x & Hx & Hlt).
        apply Qltb_lt in Hlt. apply Hmem in Hx.
        assert (Hk : 0 < k) by lia.
        destruct (Hinv Hk) as [Hc Hd].
        pose proof (Hc x Hx) as Hxm.
        split.
        -- intros j Hj. destruct (Nat.eq_dec j k) as [->|Hne].
           ++ lra.
           ++ apply Hc. lia.
        -- intros j Hj Hle. destruct (Nat.eq_dec j k) as [->|Hne].
           ++ lra.
           ++ apply Hd; [lia|exact Hle].
      * split.
        -- intros j Hj. destruct (Nat.eq_dec j k) as [->|Hne].
           ++ apply Qle_refl.
           ++ assert (Hin : In j l) by (apply Hmem; lia).
              destruct (Qltb (score_at sims k) (score_at sims j)) eqn:E.
              ** exfalso.
                 assert (Hex : existsb (fun j0 => Qltb (score_at sims k) (score_at sims j0)) l = true).
                 { apply existsb_exists. exists j. auto. }
                 congruence.
              ** apply Qltb_ge, E.
        -- intros j Hj _. lia.
Qed.

Lemma ascending_cons (sims : list Q) (i j : nat) (l : list nat) :
  ascending sims (i :: j :: l) =
    Qle_bool (score_at sims i) (score_at sims j) && ascending sims (j :: l).
Proof. reflexivity. Qed.

Lemma ascending_insert (sims : list Q) (i : nat) (l : list nat) :
  ascending sims l = true -> ascending sims (insert_index sims i l) = true.
Proof.
  induction l as [|x l IH]; intro H; [reflexivity|].
  cbn [insert_index].
  destruct (Qltb (score_at sims i) (score_at sims x)) eqn:E.
  - rewrite ascending_cons, H, andb_true_r.
    apply Qltb_lt in E. apply Qle_bool_iff, Qlt_le_weak, E.
  - apply Qltb_ge in E.
    destruct l as [|y l].
    + cbn [insert_index]. rewrite ascending_cons. simpl ascending.
      rewrite andb_true_r. apply Qle_bool_iff, E.
    + rewrite ascending_cons in H. apply andb_true_iff in H as [Hxy Hl].
      specialize (IH Hl). cbn [insert_index] in IH |- *.
      destruct (Qltb (score_at sims i) (score_at sims y)).
      * rewrite ascending_cons, IH, andb_true_r. apply Qle_bool_iff, E.
      * rewrite ascending_cons, IH, andb_true_r. exact Hxy.
Qed.

(** The stable argsort keeps the promise of [argsort]. *)
Lemma argsort_stable_is_argsort (sims : list Q) :
  is_argsort sims (argsort_stable sims) = true.
Proof.
  destruct (stable_prefix_inv sims (List.length sims)) as [Hmem _].
  fold (argsort_stable sims) in Hmem.
  unfold is_argsort. rewrite !andb_true_iff. repeat split.
  - apply forallb_forall. intros j Hj. apply in_seq in Hj.
    apply existsb_exists. exists j. split; [apply Hmem; lia|apply Nat.eqb_refl].
  - apply forallb_forall. intros j Hj. apply Nat.ltb_lt, Hmem, Hj.
  - unfold argsort_stable.
    assert (G : forall idxs acc, ascending sims acc = true ->
              ascending sims
                (fold_left (fun sorted i => insert_index sims i sorted) idxs acc)
              = true).
    { induction idxs as [|i idxs IH]; intros acc Hacc; [exact Hacc|].
      cbn [fold_left]. apply IH, ascending_insert, Hacc. }
    apply G. reflexivity.
Qed.

Lemma argsort_stable_top (sims : list Q) :
  sims <> [] ->
  exists idx,
    index_last (argsort_stable sims) = Ok idx /\
    idx < List.length sims /\
    (forall j, j < List.length sims -> (score_at sims j <= score_at sims idx)%Q) /\
    (forall j, j < List.length sims ->
               (score_at sims j == score_at sims idx)%Q -> j <= idx).
Proof.
  intro Hne.
  assert (Hpos : 0 < List.length sims) by (destruct sims; simpl; [congruence|lia]).
  destruct (stable_prefix_inv sims (List.length sims)) as [Hmem Hinv].
  fold (argsort_stable sims) in Hmem, Hinv.
  destruct (Hinv Hpos) as [Hc Hd].
  assert (Hl : argsort_stable sims <> []).
  { intro E. apply (Hmem 0) in Hpos. rewrite E in Hpos. contradiction. }
  exists (last (argsort_stable sims) 0).
  split; [apply index_last_last, Hl|]. split.
  - apply Hmem. rewrite (app_removelast_last 0 Hl) at 2.
    apply in_or_app. right. left. reflexivity.
  - split; [exact Hc|]. intros j Hj Heq. apply Hd; [exact Hj|]. lra.
Qed.

(** Orders that end in a chosen index *)

Lemma fold_insert_in (sims : list Q) (idxs acc : list nat) (j : nat) :
  In j (fold_left (fun sorted i => insert_index sims i sorted) idxs acc)
  <-> In j idxs \/ In j acc.
Proof.
  revert acc. induction idxs as [|i idxs IH]; intro acc; cbn [fold_left].
  - simpl. intuition.
  - rewrite IH, insert_index_in. simpl. intuition.
Qed.

Lemma fold_insert_ascending (sims : list Q) (idxs acc : list nat) :
  ascending sims acc = true ->
  ascending sims
    (fold_left (fun sorted i => insert_index sims i sorted) idxs acc) = true.
Proof.
  revert acc. induction idxs as [|i idxs IH]; intros acc Hacc; [exact Hacc|].
  cbn [fold_left]. apply IH, ascending_insert, Hacc.
Qed.

Lemma ascending_snoc (sims : list Q) (l : list nat) (i : nat) :
  ascending sims l = true ->
  (forall j, In j l -> (score_at sims j <= score_at sims i)%Q) ->
  ascending sims (l ++ [i]) = true.
Proof.
  induction l as [|a l IH]; intros Hasc Hle; [reflexivity|].
  destruct l as [|b l].
  - simpl. rewrite andb_true_r. apply Qle_bool_iff, Hle. left. reflexivity.
  - rewrite ascending_cons in Hasc. apply andb_true_iff in Hasc as [Hab Hl].
    change ((a :: b :: l) ++ [i])%list with (a :: b :: (l ++ [i]))%list.
    rewrite ascending_cons, Hab. cbn [andb].
    apply IH; [exact Hl|]. intros j Hj. apply Hle. right. exact Hj.
Qed.

(** Every index that carries the maximum is the last entry of some order
    that keeps the promise of [argsort]. *)
Lemma argsort_may_end_in (sims : list Q) (i : nat) :
  i < List.length sims ->
  (score_at sims i == max_score sims)%Q ->
  exists perm, is_argsort sims perm = true /\ index_last perm = Ok i.
Proof.
  intros Hi Hmax.
  set (others := filter (fun j => negb (Nat.eqb j i)) (seq 0 (List.length sims))).
  set (l := fold_left (fun sorted j => insert_index sims j sorted) others []).
  assert (Hin : forall j, In j l <-> j < List.length sims /\ j <> i).
  { intro j. unfold l. rewrite fold_insert_in. unfold others.
    rewrite filter_In, in_seq, negb_true_iff, Nat.eqb_neq. simpl. intuition lia. }
  exists (l ++ [i])%list. split; [|apply index_last_app].
  unfold is_argsort. rewrite !andb_true_iff. repeat split.
  - apply forallb_forall. intros j Hj. apply in_seq in Hj.
    apply existsb_exists. exists j. split; [|apply Nat.eqb_refl].
    apply in_or_app. destruct (Nat.eq_dec j i) as [->|Hne].
    + right. left. reflexivity.
    + left. apply Hin. lia.
  - apply forallb_forall. intros j Hj. apply Nat.ltb_lt.
    apply in_app_or in Hj as [Hj|[<-|[]]]; [apply Hin in Hj; lia|exact Hi].
  - apply ascending_snoc.
    + apply fold_insert_ascending. reflexivity.
    + intros j Hj. apply Hin in Hj as [Hj _].
      rewrite Hmax. apply max_score_ge, score_at_in, Hj.
Qed.

(** C3 (amended).  The matcher takes the index that the ascending order
    of [argsort] puts last.  Whenever that order is ascending this index
    is one of the questions tied for the maximum score, and the answer
    returned on a match is the answer at that index; which of the tied
    indices it is, the code leaves to [argsort]: every tied index is the
    last entry of some ascending order of the row. *)
Theorem faq_response_tie_break
        (tfidf_cosine : list string -> string -> result (list Q))
        (argsort : list Q -> list nat)
        (fp : list (string * string)) (text : string) (thr : Q)
        (sims : list Q) :
  questions fp <> [] ->
  tfidf_cosine (questions fp) (strip (lower text)) = Ok sims ->
  List.length sims = List.length (questions fp) ->
  is_argsort sims (argsort sims) = true ->
  (exists idx a,
      index_last (argsort sims) = Ok idx /\
      (score_at sims idx == max_score sims)%Q /\
      nth_error (answers fp) idx = Some a /\
      faq_response tfidf_cosine argsort fp text thr =
        if Qltb (max_score sims) thr then Ok None else Ok (Some a))
  /\ (forall i, i < List.length sims ->
                (score_at sims i == max_score sims)%Q ->
                exists perm,
                  is_argsort sims perm = true /\ index_last perm = Ok i).
Proof.
  intros Hq Hsims Hlen Hsort. split; [|intros i; apply argsort_may_end_in].
  assert (Hne : sims <> []).
  { intro E. subst sims. simpl in Hlen. destruct (questions fp); [congruence|discriminate]. }
  destruct (argsort_top sims (argsort sims) Hne Hsort) as (idx & Hlast & Hidx & Htop).
  pose proof (top_index_max_score sims idx Hidx Htop) as Hmax.
  destruct (nth_error (answers fp) idx) as [a|] eqn:Ea.
  2:{ apply nth_error_None in Ea.
      rewrite answers_length, <- questions_length in Ea. lia. }
  exists idx, a. split; [exact Hlast|]. split; [exact Hmax|]. split; [exact Ea|].
  rewrite (faq_response_scored _ _ _ _ thr sims idx Hq Hsims Hlast Hidx).
  assert (Hix : index (answers fp) idx = Ok a) by (apply index_Ok, Ea).
  rewrite Hix. simpl.
  destruct (Qltb (score_at sims idx) thr) eqn:E1;
    destruct (Qltb (max_score sims) thr) eqn:E2; try reflexivity; exfalso.
  - apply Qltb_lt in E1. apply Qltb_ge in E2. lra.
  - apply Qltb_ge in E1. apply Qltb_lt in E2. lra.
Qed.

Lemma faq_response_tie_break_witness :
  exists idx a,
    index_last (first_tied_last [Qmake 1 2; Qmake 2 4]) = Ok idx /\
    (score_at [Qmake 1 2; Qmake 2 4] idx == max_score [Qmake 1 2; Qmake 2 4])%Q /\
    nth_error (answers demo_pairs) idx = Some a /\
    faq_response (const_scores [Qmake 1 2; Qmake 2 4]) first_tied_last
                 demo_pairs "flu or cold" THRESHOLD =
      if Qltb (max_score [Qmake 1 2; Qmake 2 4]) THRESHOLD
      then Ok None else Ok (Some a).
Proof.
  destruct (faq_response_tie_break (const_scores [Qmake 1 2; Qmake 2 4])
              first_tied_last demo_pairs "flu or cold" THRESHOLD
              [Qmake 1 2; Qmake 2 4]) as [Hsel _].
  - discriminate.
  - reflexivity.
  - reflexivity.
  - reflexivity.
  - exact Hsel.
Defined.

(** C3, as stated, fails: the first tied index is not what the code
    promises.  Two questions tie for the maximum; the order [0; 1], which
    is ascending for the row, has index 1 last, and the matcher returns
    the answer at index 1, not the one at index 0. *)
Lemma faq_response_tie_not_first :
  (score_at [Qmake 1 2; Qmake 1 2] 0%nat == max_score [Qmake 1 2; Qmake 1 2])%Q /\
  (score_at [Qmake 1 2; Qmake 1 2] 1%nat == max_score [Qmake 1 2; Qmake 1 2])%Q /\
  is_argsort [Qmake 1 2; Qmake 1 2] [0; 1] = true /\
  nth_error (answers demo_pairs) 0 = Some "A viral infection." /\
  faq_response (const_scores [Qmake 1 2; Qmake 1 2]) (fun _ => [0; 1])
               demo_pairs "flu or cold" THRESHOLD
  = Ok (Some "A mild one.") /\
  ~ (forall (argsort : list Q -> list nat) (sims : list Q) (idx : nat),
        is_argsort sims (argsort sims) = true ->
        index_last (argsort sims) = Ok idx ->
        forall j, j < List.length sims ->
                  (score_at sims j == max_score sims)%Q -> idx <= j).
Proof.
  repeat split; try reflexivity.
  intro H.
  specialize (H (fun _ => [0; 1]) [Qmake 1 2; Qmake 1 2] 1 eq_refl eq_refl 0).
  assert (Hle : 1 <= 0); [|lia].
  apply H; [simpl; lia|reflexivity].
Qed.

(** ** Tokens of [split] *)

Lemma no_space_app (s t : string) :
  no_space (s ++ t) = no_space s && no_space t.
Proof.
  induction s as [|c s IH]; simpl; [reflexivity|].
  rewrite IH. apply andb_assoc.
Qed.

Lemma split_from_tokens (s : string) :
  forall tok w,
    no_space tok = true -> In w (split_from tok s) ->
    no_space w = true /\ w <> "".
Proof.
  induction s as [|c s IH]; intros tok w Htok Hin; simpl in Hin.
  - destruct tok; [contradiction|].
    destruct Hin as [<-|[]]. split; [exact Htok|discriminate].
  - destruct (isspace c) eqn:Ec.
    + destruct tok as [|a tok].
      * apply (IH "" w); [reflexivity|exact Hin].
      * destruct Hin as [<-|Hin].
        -- split; [exact Htok|discriminate].
        -- apply (IH "" w); [reflexivity|exact Hin].
    + apply (IH (tok ++ String c "") w); [|exact Hin].
      rewrite no_space_app, Htok. simpl. rewrite Ec. reflexivity.
Qed.

Lemma split_tokens (s w : string) :
  In w (split s) -> no_space w = true /\ w <> "".
Proof. apply split_from_tokens. reflexivity. Qed.

Lemma isspace_lower_char (c : ascii) : isspace (lower_char c) = isspace c.
Proof.
  destruct c as [b0 b1 b2 b3 b4 b5 b6 b7].
  destruct b0, b1, b2, b3, b4, b5, b6, b7; reflexivity.
Qed.

Lemma no_space_lower (s : string) : no_space (lower s) = no_space s.
Proof.
  induction s as [|c s IH]; simpl; [reflexivity|].
  rewrite isspace_lower_char, IH. reflexivity.
Qed.

Lemma str_in_In (x : string) (tup : list string) :
  str_in x tup = true <-> In x tup.
Proof.
  unfold str_in. rewrite existsb_exists. split.
  - intros (y & Hy & Heq). apply String.eqb_eq in Heq. subst y. exact Hy.
  - intro H. exists x. split; [exact H|apply String.eqb_refl].
Qed.

(** ** The greeting helper *)

Lemma greet_loop_Some (rnd : nat) (ws : list string) :
  (exists w, In w ws /\ str_in (lower w) GREET_IN = true) ->
  greet_loop rnd ws = Some (random_choice rnd GREET_OUT).
Proof.
  induction ws as [|w ws IH]; intros (x & Hx & Hg); cbn [greet_loop].
  - contradiction.
  - destruct (str_in (lower w) GREET_IN) eqn:E; [reflexivity|].
    destruct Hx as [->|Hx]; [congruence|]. apply IH. eauto.
Qed.

Lemma greet_loop_None (rnd : nat) (ws : list string) :
  (forall w, In w ws -> str_in (lower w) GREET_IN = false) ->
  greet_loop rnd ws = None.
Proof.
  induction ws as [|w ws IH]; intro H; cbn [greet_loop]; [reflexivity|].
  rewrite (H w) by (left; reflexivity). apply IH.
  intros x Hx. apply H. right. exact Hx.
Qed.

Lemma random_choice_GREET_OUT (rnd : nat) :
  In (random_choice rnd GREET_OUT) GREET_OUT /\
  nonempty (random_choice rnd GREET_OUT) = true.
Proof.
  unfold random_choice.
  assert (H : rnd mod List.length GREET_OUT < 4)
    by (apply Nat.mod_upper_bound; discriminate).
  destruct (rnd mod List.length GREET_OUT) as [|[|[|[|n]]]]; simpl;
    try lia; intuition.
Qed.

(** C10.  The greeting check looks at one white-space-free token at a
    time, so no token, lowercased, is the entry 'how are you?'; the check
    succeeds exactly when some token lowercases to one of the five
    single-word entries, and then yields one of the fixed greetings. *)
Theorem maybe_greet_single_tokens (rnd : nat) (txt : string) :
  (forall w, In w (split txt) ->
             no_space (lower w) = true /\ lower w <> "how are you?")
  /\ (maybe_greet rnd txt <> None <->
      exists w, In w (split txt) /\
                In (lower w) ["hello"; "hi"; "hey"; "namaste"; "whassup"])
  /\ (forall g, maybe_greet rnd txt = Some g -> In g GREET_OUT).
Proof.
  assert (Hdec : (exists w, In w (split txt) /\ str_in (lower w) GREET_IN = true)
                 \/ (forall w, In w (split txt) -> str_in (lower w) GREET_IN = false)).
  { induction (split txt) as [|w ws IH].
    - right. intros w [].
    - destruct (str_in (lower w) GREET_IN) eqn:E.
      + left. exists w. split; [left; reflexivity|exact E].
      + destruct IH as [(x & Hx & Hg)|Hnone].
        * left. exists x. split; [right; exact Hx|exact Hg].
        * right. intros x [<-|Hx]; [exact E|apply Hnone, Hx]. }
  assert (Htok : forall w, In w (split txt) ->
            no_space (lower w) = true /\ lower w <> "how are you?").
  { intros w Hw. apply split_tokens in Hw as [Hns _].
    rewrite <- no_space_lower in Hns. split; [exact Hns|].
    intro E. rewrite E in Hns. discriminate. }
  split; [exact Htok|]. unfold maybe_greet. split.
  - split.
    + intro Hsome. destruct Hdec as [(w & Hw & Hg)|Hnone].
      * exists w. split; [exact Hw|].
        apply str_in_In in Hg. destruct (Htok w Hw) as [_ Hne].
        simpl in Hg. simpl. intuition congruence.
      * exfalso. apply Hsome. apply greet_loop_None, Hnone.
    + intros (w & Hw & Hin). rewrite (greet_loop_Some rnd (split txt)).
      * discriminate.
      * exists w. split; [exact Hw|]. apply str_in_In.
        simpl in Hin. simpl. intuition.
  - intros g Hg. destruct Hdec as [Hex|Hnone].
    + rewrite (greet_loop_Some rnd _ Hex) in Hg. inversion Hg.
      apply random_choice_GREET_OUT.
    + rewrite (greet_loop_None rnd _ Hnone) in Hg. discriminate.
Qed.

(** ** The router *)

Lemma split_nonempty (msg w : string) : In w (split msg) -> nonempty msg = true.
Proof. destruct msg; [contradiction|reflexivity]. Qed.

(** C5.  A message with a token that lowercases to a greeting word and
    with the substring "covid" is answered by the greeting branch: the
    reply is the drawn greeting followed by the guidance suffix, whatever
    the outbound calls, the corpus and the similarity pipeline would
    answer. *)
Theorem handle_user_message_greeting_first
        (requests_get : string -> list (string * string) -> Z -> result Response)
        (py_repr : JSON -> string)
        (fromtimestamp_strftime : Q -> result string)
        (tfidf_cosine : list string -> string -> result (list Q))
        (argsort : list Q -> list nat) (rnd : nat)
        (fp : list (string * string)) (msg w : string) :
  In w (split msg) ->
  str_in (lower w) GREET_IN = true ->
  contains "covid" (strip (lower msg)) = true ->
  maybe_greet rnd msg = Some (random_choice rnd GREET_OUT)
  /\ In (random_choice rnd GREET_OUT) GREET_OUT
  /\ handle_user_message requests_get py_repr fromtimestamp_strftime
                         tfidf_cosine argsort rnd fp msg
     = Ok (random_choice rnd GREET_OUT ++ GREET_SUFFIX).
Proof.
  intros Hw Hg _.
  assert (Hgreet : maybe_greet rnd msg = Some (random_choice rnd GREET_OUT)).
  { apply greet_loop_Some. exists w. auto. }
  destruct (random_choice_GREET_OUT rnd) as [Hin Hne].
  split; [exact Hgreet|]. split; [exact Hin|].
  unfold handle_user_message.
  rewrite (split_nonempty msg w Hw). cbn [negb].
  rewrite Hgreet. unfold if_truthy. rewrite Hne. reflexivity.
Qed.

Lemma handle_user_message_greeting_first_witness :
  handle_user_message offline no_repr no_clock no_scores argsort_stable 2
                      demo_pairs "hi covid"
  = Ok ("Hey! Ask me about symptoms, prevention, vaccines, or outbreaks.").
Proof.
  apply (handle_user_message_greeting_first offline no_repr no_clock no_scores
           argsort_stable 2 demo_pairs "hi covid" "hi").
  - simpl. left. reflexivity.
  - reflexivity.
  - reflexivity.
Defined.

(** ** The live data fetchers *)

Lemma py_get_not_dict (j : JSON) (key : string) (default : JSON) :
  is_dict j = false -> py_get j key default = Raise AttributeError.
Proof. destruct j; simpl; intro H; try reflexivity; discriminate. Qed.

(** C8.  When the outbound call of a fetcher raises (time-out, network
    error), answers with a status other than 200, or answers 200 with a
    payload that does not decode or is not an object, the fetcher returns
    its fixed fallback string; being a string-valued function, it hands
    no exception to its caller. *)
Theorem fetchers_fail_safe
        (requests_get : string -> list (string * string) -> Z -> result Response)
        (py_repr : JSON -> string)
        (fromtimestamp_strftime : Q -> result string)
        (limit : nat) (pincode date : string) :
  (bad_outcome json_malformed (requests_get COVID_URL USER_AGENT TIMEOUT) ->
   get_covid_update_india requests_get py_repr fromtimestamp_strftime
   = COVID_UNAVAILABLE)
  /\ (bad_outcome xml_malformed (requests_get WHO_URL USER_AGENT TIMEOUT) ->
      get_who_outbreak_headlines requests_get limit = WHO_UNAVAILABLE)
  /\ (bad_outcome json_malformed
        (requests_get (COWIN_URL pincode date) USER_AGENT TIMEOUT) ->
      get_cowin_slots_by_pin requests_get py_repr pincode date
      = SLOT_UNAVAILABLE).
Proof.
  split; [|split]; intro H.
  - unfold get_covid_update_india. cbv zeta.
    inversion H as [e He|r Hst He|r Hst Hbad He]; simpl.
    + reflexivity.
    + apply Z.eqb_neq in Hst. rewrite Hst. reflexivity.
    + rewrite Hst. simpl. destruct Hbad as [(e & Hj)|(j & Hj & Hd)]; rewrite Hj; simpl.
      * reflexivity.
      * rewrite py_get_not_dict by exact Hd. reflexivity.
  - unfold get_who_outbreak_headlines. cbv zeta.
    inversion H as [e He|r Hst He|r Hst Hbad He]; simpl.
    + reflexivity.
    + apply Z.eqb_neq in Hst. rewrite Hst. reflexivity.
    + rewrite Hst. simpl. destruct Hbad as (e & Hx). rewrite Hx. reflexivity.
  - unfold get_cowin_slots_by_pin. cbv zeta.
    inversion H as [e He|r Hst He|r Hst Hbad He]; simpl.
    + reflexivity.
    + apply Z.eqb_neq in Hst. rewrite Hst. reflexivity.
    + rewrite Hst. simpl. destruct Hbad as [(e & Hj)|(j & Hj & Hd)]; rewrite Hj; simpl.
      * reflexivity.
      * rewrite py_get_not_dict by exact Hd. reflexivity.
Qed.

Lemma fetchers_fail_safe_witness :
  get_covid_update_india offline no_repr no_clock = COVID_UNAVAILABLE
  /\ get_who_outbreak_headlines
       (answering (Raise JSONDecodeError) (Raise ParseError)) 5
     = WHO_UNAVAILABLE
  /\ get_cowin_slots_by_pin
       (fun _ _ _ => Ok {| status_code := 500; json := Ok (JDict []);
                           xml := Raise ParseError |})
       no_repr "700001" "31-08-2025"
     = SLOT_UNAVAILABLE.
Proof.
  split; [|split].
  - apply (fetchers_fail_safe offline no_repr no_clock 5 "700001" "31-08-2025").
    apply bad_raise.
  - apply (fetchers_fail_safe
             (answering (Raise JSONDecodeError) (Raise ParseError))
             no_repr no_clock 5 "700001" "31-08-2025").
    apply bad_payload; [reflexivity|]. exists ParseError. reflexivity.
  - apply (fetchers_fail_safe
             (fun _ _ _ => Ok {| status_code := 500; json := Ok (JDict []);
                                 xml := Raise ParseError |})
             no_repr no_clock 5 "700001" "31-08-2025").
    apply bad_status. discriminate.
Defined.

(** ** The outbreak headlines *)

Lemma title_line_item_title (it : Element) :
  title_line it =
    match item_title it with
    | Some t => [BULLET ++ " " ++ t]
    | None => []
    end.
Proof.
  unfold title_line, item_title.
  destruct (find "title" it) as [e|]; reflexivity.
Qed.

Lemma title_lines_titles_of (items : list Element) :
  flat_map title_line items =
    map (fun t => BULLET ++ " " ++ t) (titles_of items).
Proof.
  unfold titles_of.
  induction items as [|it items IH]; [reflexivity|].
  cbn [flat_map]. rewrite map_app, <- IH, title_line_item_title.
  destruct (item_title it); reflexivity.
Qed.

Lemma titles_of_length (items : list Element) :
  List.length (titles_of items) <= List.length items.
Proof.
  unfold titles_of.
  induction items as [|it items IH]; simpl; [lia|].
  rewrite length_app. destruct (item_title it); simpl; lia.
Qed.

Lemma titles_of_in (items : list Element) (t : string) :
  In t (titles_of items) <->
  exists it, In it items /\ item_title it = Some t.
Proof.
  unfold titles_of. rewrite in_flat_map. split.
  - intros (it & Hit & Ht). exists it. split; [exact Hit|].
    destruct (item_title it) as [t'|]; [|contradiction].
    destruct Ht as [->|[]]. reflexivity.
  - intros (it & Hit & Ht). exists it. split; [exact Hit|].
    rewrite Ht. left. reflexivity.
Qed.

(** C9 (amended).  For a response with status 200: a document that does
    not parse yields the fixed "unavailable" message; a parsed document
    yields, for the titles of its first [limit] items taken in document
    order, at most [limit] bulleted lines under the header, and the fixed
    "no items" message when there is no item or no title among them. *)
Theorem who_headlines_render
        (requests_get : string -> list (string * string) -> Z -> result Response)
        (limit : nat) (r : Response) :
  requests_get WHO_URL USER_AGENT TIMEOUT = Ok r ->
  status_code r = 200%Z ->
  (forall e, xml r = Raise e ->
             get_who_outbreak_headlines requests_get limit = WHO_UNAVAILABLE)
  /\ (forall root, xml r = Ok root ->
        let titles := titles_of (firstn limit (feed_items root)) in
        List.length titles <= limit
        /\ (forall t, In t titles ->
                      exists it, In it (feed_items root) /\ item_title it = Some t)
        /\ (feed_items root = [] -> titles = [])
        /\ get_who_outbreak_headlines requests_get limit =
             match titles with
             | [] => WHO_NO_ITEMS
             | _ => WHO_HEADER
                    ++ join nl (map (fun t => BULLET ++ " " ++ t) titles)
             end).
Proof.
  intros Hget Hst. split.
  - intros e Hx. unfold get_who_outbreak_headlines. cbv zeta.
    rewrite Hget. simpl. rewrite Hst, Hx. reflexivity.
  - intros root Hx titles. subst titles. split; [|split; [|split]].
    + eapply Nat.le_trans; [apply titles_of_length|].
      rewrite length_firstn. lia.
    + intros t Ht. apply titles_of_in in Ht as (it & Hit & Ht).
      exists it. split; [|exact Ht].
      rewrite <- (firstn_skipn limit (feed_items root)).
      apply in_or_app. left. exact Hit.
    + intros ->. destruct limit; reflexivity.
    + unfold get_who_outbreak_headlines. cbv zeta.
      rewrite Hget. simpl. rewrite Hst, Hx. simpl.
      fold (feed_items root).
      destruct (feed_items root) as [|it items] eqn:E.
      * destruct limit; reflexivity.
      * simpl. rewrite title_lines_titles_of.
        destruct (titles_of (firstn limit (it :: items))); reflexivity.
Qed.

Lemma who_headlines_render_witness :
  get_who_outbreak_headlines
    (answering (Raise JSONDecodeError) (Ok demo_feed)) 5
  = WHO_HEADER
    ++ join nl [BULLET ++ " Cholera"; BULLET ++ " Mpox";
                BULLET ++ " Measles"; BULLET ++ " Dengue"].
Proof.
  destruct (who_headlines_render
              (answering (Raise JSONDecodeError) (Ok demo_feed)) 5
              {| status_code := 200; json := Raise JSONDecodeError;
                 xml := Ok demo_feed |} eq_refl eq_refl) as [_ Hparsed].
  destruct (Hparsed demo_feed eq_refl) as (_ & _ & _ & Hrender).
  exact Hrender.
Defined.

(** C9, as stated, fails: a feed that does not parse is answered with the
    "unavailable" message, not with the "no items" message. *)
Lemma who_malformed_feed_unavailable :
  get_who_outbreak_headlines
    (answering (Raise JSONDecodeError) (Raise ParseError)) 5
  = WHO_UNAVAILABLE
  /\ get_who_outbreak_headlines
       (answering (Raise JSONDecodeError) (Raise ParseError)) 5
     <> WHO_NO_ITEMS.
Proof. split; [reflexivity|]. vm_compute. discriminate. Qed.

(** ** The patterns of the slot lookup *)

Lemma prefix_app (m rest : string) : prefix m (m ++ rest) = true.
Proof.
  induction m as [|c m IH]; simpl; [destruct rest; reflexivity|].
  destruct (ascii_dec c c); [exact IH|congruence].
Qed.

Lemma match_atoms_sound (pat : list atom) :
  forall prev s m lastc rest,
    match_atoms pat prev s = Some (m, lastc, rest) ->
    s = m ++ rest /\ has_shape pat m = true.
Proof.
  induction pat as [|a pat IH]; intros prev s m lastc rest H; simpl in H.
  - inversion H; subst. split; reflexivity.
  - destruct s as [|c s]; [discriminate|].
    destruct (atom_matches a c) eqn:Ea; [|discriminate].
    destruct (match_atoms pat (Some c) s) as [[[m' l'] r']|] eqn:Em; [|discriminate].
    inversion H; subst. destruct (IH _ _ _ _ _ Em) as [-> Hs].
    split; [reflexivity|]. simpl. rewrite Ea, Hs. reflexivity.
Qed.

Lemma search_from_sound (pat : list atom) (s : string) :
  forall prev m,
    search_from pat prev s = Some m ->
    has_shape pat m = true /\ contains m s = true.
Proof.
  assert (Hhere : forall prev t m, match_here pat prev t = Some m ->
                    has_shape pat m = true /\ prefix m t = true).
  { intros prev t m H. unfold match_here in H.
    destruct (word_boundary prev (head_char t)); [|discriminate].
    destruct (match_atoms pat prev t) as [[[m' l'] r']|] eqn:Em; [|discriminate].
    destruct (word_boundary l' (head_char r')); [|discriminate].
    inversion H; subst. destruct (match_atoms_sound _ _ _ _ _ _ Em) as [-> Hs].
    split; [exact Hs|apply prefix_app]. }
  induction s as [|c s IH]; intros prev m H.
  - cbn [search_from] in H.
    destruct (match_here pat prev "") eqn:E; [|discriminate].
    inversion H; subst. destruct (Hhere _ _ _ E) as [Hs Hp].
    split; [exact Hs|]. cbn [contains]. rewrite Hp. reflexivity.
  - cbn [search_from] in H.
    destruct (match_here pat prev (String c s)) eqn:E.
    + inversion H; subst. destruct (Hhere _ _ _ E) as [Hs Hp].
      split; [exact Hs|]. cbn [contains]. rewrite Hp. reflexivity.
    + destruct (IH _ _ H) as [Hs Hc]. split; [exact Hs|].
      cbn [contains]. rewrite Hc. apply orb_true_r.
Qed.

Lemma re_search_sound (pat : list atom) (text m : string) :
  re_search pat text = Some m ->
  has_shape pat m = true /\ contains m text = true.
Proof. apply search_from_sound. Qed.

Lemma match_atoms_last (pat : list atom) :
  forall prev s m lastc rest,
    match_atoms pat prev s = Some (m, lastc, rest) -> lastc = last_or prev m.
Proof.
  induction pat as [|a pat IH]; intros prev s m lastc rest H; simpl in H.
  - inversion H; subst. reflexivity.
  - destruct s as [|c s]; [discriminate|].
    destruct (atom_matches a c); [|discriminate].
    destruct (match_atoms pat (Some c) s) as [[[m' l'] r']|] eqn:Em; [|discriminate].
    inversion H; subst. simpl. apply (IH _ _ _ _ _ Em).
Qed.

Lemma match_here_delimited (pat : list atom) (prev : option ascii) (s m : string) :
  match_here pat prev s = Some m ->
  exists post,
    s = m ++ post
    /\ word_boundary prev (head_char (m ++ post)) = true
    /\ word_boundary (last_or prev m) (head_char post) = true.
Proof.
  unfold match_here. intro H.
  destruct (word_boundary prev (head_char s)) eqn:B1; [|discriminate].
  destruct (match_atoms pat prev s) as [[[m' l'] r']|] eqn:Em; [|discriminate].
  destruct (word_boundary l' (head_char r')) eqn:B2; [|discriminate].
  inversion H; subst m'.
  destruct (match_atoms_sound _ _ _ _ _ _ Em) as [Hs _].
  pose proof (match_atoms_last _ _ _ _ _ _ Em) as Hl. subst l' s.
  exists r'. auto.
Qed.

Lemma search_from_delimited (pat : list atom) (s : string) :
  forall prev m,
    search_from pat prev s = Some m ->
    exists pre post,
      s = pre ++ m ++ post
      /\ word_boundary (last_or prev pre) (head_char (m ++ post)) = true
      /\ word_boundary (last_or (last_or prev pre) m) (head_char post) = true.
Proof.
  induction s as [|c s IH]; intros prev m H; cbn [search_from] in H.
  - destruct (match_here pat prev "") eqn:E; [|discriminate].
    inversion H; subst. apply match_here_delimited in E as (post & Hs & B1 & B2).
    exists "", post. auto.
  - destruct (match_here pat prev (String c s)) eqn:E.
    + inversion H; subst.
      apply match_here_delimited in E as (post & Hs & B1 & B2).
      exists "", post. auto.
    + apply IH in H as (pre & post & Hs & B1 & B2).
      exists (String c pre), post. subst s. auto.
Qed.

(** The search is leftmost and complete *)

Lemma search_from_eq (pat : list atom) (prev : option ascii) (s : string) :
  search_from pat prev s =
    match match_here pat prev s with
    | Some m => Some m
    | None =>
        match s with
        | "" => None
        | String c s' => search_from pat (Some c) s'
        end
    end.
Proof. destruct s; reflexivity. Qed.

Lemma match_atoms_complete (pat : list atom) :
  forall m prev post,
    has_shape pat m = true ->
    match_atoms pat prev (m ++ post) = Some (m, last_or prev m, post).
Proof.
  induction pat as [|a pat IH]; intros m prev post H.
  - destruct m; [reflexivity|discriminate].
  - destruct m as [|c m]; [discriminate|].
    simpl in H. apply andb_true_iff in H as [Ha Hm].
    simpl. rewrite Ha, (IH m (Some c) post Hm). reflexivity.
Qed.

Lemma match_here_complete (pat : list atom) (prev : option ascii) (m post : string) :
  has_shape pat m = true ->
  word_boundary prev (head_char (m ++ post)) = true ->
  word_boundary (last_or prev m) (head_char post) = true ->
  match_here pat prev (m ++ post) = Some m.
Proof.
  intros Hs B1 B2. unfold match_here.
  rewrite B1, (match_atoms_complete pat m prev post Hs), B2. reflexivity.
Qed.

Lemma search_from_none (pat : list atom) (s : string) :
  forall prev,
    search_from pat prev s = None ->
    forall pre m post,
      s = pre ++ m ++ post ->
      has_shape pat m = true ->
      word_boundary (last_or prev pre) (head_char (m ++ post)) = true ->
      word_boundary (last_or (last_or prev pre) m) (head_char post) = true ->
      False.
Proof.
  induction s as [|c s IH]; intros prev H pre m post Hs Hshape B1 B2;
    rewrite search_from_eq in H;
    destruct (match_here pat prev _) eqn:E; try discriminate H.
  - destruct pre; [|discriminate Hs]. simpl in Hs, B1, B2.
    rewrite Hs, (match_here_complete pat prev m post Hshape B1 B2) in E.
    discriminate E.
  - destruct pre as [|d pre].
    + simpl in Hs, B1, B2.
      rewrite Hs, (match_here_complete pat prev m post Hshape B1 B2) in E.
      discriminate E.
    + simpl in Hs. inversion Hs; subst d s.
      apply (IH (Some c) H pre m post eq_refl Hshape B1 B2).
Qed.

Lemma search_from_leftmost (pat : list atom) (s : string) :
  forall prev m,
    search_from pat prev s = Some m ->
    exists pre post,
      (s = pre ++ m ++ post
       /\ has_shape pat m = true
       /\ word_boundary (last_or prev pre) (head_char (m ++ post)) = true
       /\ word_boundary (last_or (last_or prev pre) m) (head_char post) = true)
      /\ forall pre' m' post',
           s = pre' ++ m' ++ post' ->
           has_shape pat m' = true ->
           word_boundary (last_or prev pre') (head_char (m' ++ post')) = true ->
           word_boundary (last_or (last_or prev pre') m') (head_char post') = true ->
           String.length pre <= String.length pre'.
Proof.
  assert (Hhere : forall prev t m, match_here pat prev t = Some m ->
            exists post,
              t = m ++ post /\ has_shape pat m = true
              /\ word_boundary prev (head_char (m ++ post)) = true
              /\ word_boundary (last_or prev m) (head_char post) = true).
  { intros prev t m E.
    assert (Hshape : has_shape pat m = true).
    { unfold match_here in E.
      destruct (word_boundary prev (head_char t)); [|discriminate].
      destruct (match_atoms pat prev t) as [[[m' l'] r']|] eqn:Em; [|discriminate].
      destruct (word_boundary l' (head_char r')); [|discriminate].
      inversion E; subst. apply (match_atoms_sound _ _ _ _ _ _ Em). }
    apply match_here_delimited in E as (post & Hs & B1 & B2).
    exists post. auto. }
  induction s as [|c s IH]; intros prev m H; rewrite search_from_eq in H;
    destruct (match_here pat prev _) eqn:E.
  - inversion H; subst. destruct (Hhere _ _ _ E) as (post & Hs & Hsh & B1 & B2).
    exists "", post. split; [auto|]. intros. simpl. lia.
  - discriminate H.
  - inversion H; subst. destruct (Hhere _ _ _ E) as (post & Hs & Hsh & B1 & B2).
    exists "", post. split; [auto|]. intros. simpl. lia.
  - destruct (IH (Some c) m H) as (pre & post & (Hs & Hsh & B1 & B2) & Hleft).
    exists (String c pre), post. split.
    + subst s. auto.
    + intros pre' m' post' Hs' Hsh' B1' B2'. destruct pre' as [|d pre'].
      * simpl in Hs', B1', B2'.
        rewrite Hs', (match_here_complete pat prev m' post' Hsh' B1' B2') in E.
        discriminate E.
      * simpl in Hs'. inversion Hs'; subst d.
        simpl. apply le_n_S. apply (Hleft pre' m' post'); assumption.
Qed.

Lemma re_search_leftmost (pat : list atom) (text m : string) :
  re_search pat text = Some m -> leftmost_occurrence pat text m.
Proof.
  intro H. apply search_from_leftmost in H as (pre & post & Hocc & Hleft).
  exists pre, post. split; [exact Hocc|].
  intros pre' m' post' (Hs & Hsh & B1 & B2). apply (Hleft pre' m' post'); assumption.
Qed.

Lemma re_search_none (pat : list atom) (text : string) :
  re_search pat text = None -> no_occurrence pat text.
Proof.
  intros H pre m post (Hs & Hsh & B1 & B2).
  apply (search_from_none pat text None H pre m post); assumption.
Qed.

Lemma has_shape_length (pat : list atom) :
  forall m, has_shape pat m = true -> String.length m = List.length pat.
Proof.
  induction pat as [|a pat IH]; intros [|c m] H; try discriminate; [reflexivity|].
  simpl in H. apply andb_true_iff in H as [_ H]. simpl. f_equal. apply IH, H.
Qed.

Lemma same_place_same_text (pre pre' : string) :
  forall m m' post post',
    pre ++ m ++ post = pre' ++ m' ++ post' ->
    String.length pre = String.length pre' ->
    String.length m = String.length m' ->
    m = m'.
Proof.
  revert pre'. induction pre as [|c pre IH]; intros [|c' pre'] m m' post post' H Hp Hm;
    try discriminate Hp.
  - simpl in H. clear Hp. revert m' H Hm.
    induction m as [|d m IHm]; intros [|d' m'] H Hm; try discriminate Hm;
      [reflexivity|].
    simpl in H. inversion H. f_equal. apply IHm; [assumption|].
    simpl in Hm. lia.
  - simpl in H. inversion H. apply (IH pre' m m' post post'); [assumption| |assumption].
    simpl in Hp. lia.
Qed.

Lemma leftmost_occurrence_unique (pat : list atom) (text m m' : string) :
  leftmost_occurrence pat text m -> leftmost_occurrence pat text m' -> m = m'.
Proof.
  intros (pre & post & Hocc & Hleft) (pre' & post' & Hocc' & Hleft').
  pose proof (Hleft _ _ _ Hocc') as H1. pose proof (Hleft' _ _ _ Hocc) as H2.
  destruct Hocc as (Hs & Hsh & _). destruct Hocc' as (Hs' & Hsh' & _).
  apply (same_place_same_text pre pre' m m' post post').
  - congruence.
  - lia.
  - rewrite (has_shape_length pat m Hsh), (has_shape_length pat m' Hsh').
    reflexivity.
Qed.

(** [re_search] finds exactly the leftmost word-bounded occurrence, and
    nothing exactly when there is none. *)
Lemma re_search_spec (pat : list atom) (text : string) :
  (forall m, re_search pat text = Some m <-> leftmost_occurrence pat text m)
  /\ (re_search pat text = None <-> no_occurrence pat text).
Proof.
  assert (Hsome : forall m, leftmost_occurrence pat text m ->
                            re_search pat text = Some m).
  { intros m Hm. destruct (re_search pat text) as [m'|] eqn:E.
    - f_equal. apply (leftmost_occurrence_unique pat text);
        [apply re_search_leftmost, E|exact Hm].
    - exfalso. destruct Hm as (pre & post & Hocc & _).
      apply (re_search_none pat text E pre m post Hocc). }
  split.
  - intro m. split; [apply re_search_leftmost|apply Hsome].
  - split; [apply re_search_none|].
    intro Hno. destruct (re_search pat text) as [m|] eqn:E; [|reflexivity].
    exfalso. apply re_search_leftmost in E as (pre & post & Hocc & _).
    apply (Hno pre m post Hocc).
Qed.

(** C2 (amended).  For a non-empty ASCII message without a greeting
    token whose lowercased, stripped text names neither covid/corona nor
    who with outbreak/news/alert, and holds "vaccination" or "vaccine"
    together with "slot", "available" or "pin": when the text holds a
    word-bounded run of six digits and a word-bounded run dd-dd-dddd, the
    router hands the leftmost of each to the slot fetcher; when either is
    absent it returns the usage hint; and one of the two cases always
    applies.  In the text "check slots 700001 31-08-2025" the leftmost
    such runs are "700001" and "31-08-2025". *)
Theorem handle_user_message_slot_lookup
        (requests_get : string -> list (string * string) -> Z -> result Response)
        (py_repr : JSON -> string)
        (fromtimestamp_strftime : Q -> result string)
        (tfidf_cosine : list string -> string -> result (list Q))
        (argsort : list Q -> list nat) (rnd : nat)
        (fp : list (string * string)) (msg : string) :
  ascii_only msg = true ->
  nonempty msg = true ->
  maybe_greet rnd msg = None ->
  contains "covid" (strip (lower msg))
  || contains "corona" (strip (lower msg)) = false ->
  contains "who" (strip (lower msg))
  && (contains "outbreak" (strip (lower msg))
      || contains "news" (strip (lower msg))
      || contains "alert" (strip (lower msg))) = false ->
  (contains "vaccination" (strip (lower msg))
   || contains "vaccine" (strip (lower msg)))
  && (contains "slot" (strip (lower msg))
      || contains "available" (strip (lower msg))
      || contains "pin" (strip (lower msg))) = true ->
  (forall pin date,
      leftmost_occurrence PIN_RE (strip (lower msg)) pin ->
      leftmost_occurrence DATE_RE (strip (lower msg)) date ->
      handle_user_message requests_get py_repr fromtimestamp_strftime
                          tfidf_cosine argsort rnd fp msg
      = Ok (get_cowin_slots_by_pin requests_get py_repr pin date))
  /\ (no_occurrence PIN_RE (strip (lower msg)) \/
      no_occurrence DATE_RE (strip (lower msg)) ->
      handle_user_message requests_get py_repr fromtimestamp_strftime
                          tfidf_cosine argsort rnd fp msg
      = Ok SLOT_USAGE)
  /\ ((exists pin, leftmost_occurrence PIN_RE (strip (lower msg)) pin)
      \/ no_occurrence PIN_RE (strip (lower msg)))
  /\ ((exists date, leftmost_occurrence DATE_RE (strip (lower msg)) date)
      \/ no_occurrence DATE_RE (strip (lower msg)))
  /\ strip (lower "Check slots 700001 31-08-2025")
     = "check slots 700001 31-08-2025"
  /\ leftmost_occurrence PIN_RE "check slots 700001 31-08-2025" "700001"
  /\ leftmost_occurrence DATE_RE "check slots 700001 31-08-2025" "31-08-2025".
Proof.
  intros _ Hne Hgreet Hcovid Hwho Hvac.
  assert (Hrun : handle_user_message requests_get py_repr fromtimestamp_strftime
                   tfidf_cosine argsort rnd fp msg =
                 match re_search PIN_RE (strip (lower msg)),
                       re_search DATE_RE (strip (lower msg)) with
                 | Some pin, Some date =>
                     Ok (get_cowin_slots_by_pin requests_get py_repr pin date)
                 | _, _ => Ok SLOT_USAGE
                 end).
  { unfold handle_user_message. rewrite Hne, Hgreet. cbn [negb if_truthy].
    cbv zeta. rewrite Hcovid, Hwho, Hvac. reflexivity. }
  assert (Hcases : forall pat text,
            (exists m, leftmost_occurrence pat text m) \/ no_occurrence pat text).
  { intros pat text. destruct (re_search pat text) as [m|] eqn:E.
    - left. exists m. apply re_search_leftmost, E.
    - right. apply re_search_none, E. }
  split; [|split; [|split; [|split; [|split; [|split]]]]].
  - intros pin date Hpin Hdate.
    apply (proj1 (re_search_spec PIN_RE _)) in Hpin.
    apply (proj1 (re_search_spec DATE_RE _)) in Hdate.
    rewrite Hrun, Hpin, Hdate. reflexivity.
  - intros [Hn|Hn]; apply (proj2 (re_search_spec _ _)) in Hn; rewrite Hrun, Hn;
      [reflexivity|].
    destruct (re_search PIN_RE _); reflexivity.
  - apply Hcases.
  - apply Hcases.
  - reflexivity.
  - apply re_search_leftmost. reflexivity.
  - apply re_search_leftmost. reflexivity.
Qed.

Lemma handle_user_message_slot_lookup_witness :
  handle_user_message offline no_repr no_clock no_scores argsort_stable 0
                      demo_pairs
                      "Vaccine slots for 7000011 or 700001 on 31-08-2025, 01-09-2025"
  = Ok (get_cowin_slots_by_pin offline no_repr "700001" "31-08-2025").
Proof.
  destruct (handle_user_message_slot_lookup offline no_repr no_clock no_scores
              argsort_stable 0 demo_pairs
              "Vaccine slots for 7000011 or 700001 on 31-08-2025, 01-09-2025"
              eq_refl eq_refl eq_refl eq_refl eq_refl eq_refl) as [Hboth _].
  apply (Hboth "700001" "31-08-2025").
  - apply re_search_leftmost. reflexivity.
  - apply re_search_leftmost. reflexivity.
Defined.

(** C2, as stated, fails.  "Check slots" names no vaccine word, so it
    never reaches the slot branch and is not answered with the usage
    hint; and a text with the vaccine and slot words that also names
    covid is answered by the COVID fetcher. *)
Lemma check_slots_not_routed :
  handle_user_message offline no_repr no_clock no_scores argsort_stable 0
                      [] "Check slots"
  = Ok APOLOGY
  /\ APOLOGY <> SLOT_USAGE
  /\ handle_user_message offline no_repr no_clock no_scores argsort_stable 0
                         [] "Check slots 700001 31-08-2025"
     = Ok APOLOGY
  /\ handle_user_message offline no_repr no_clock no_scores argsort_stable 0
                         [] "covid vaccine slot"
     = Ok COVID_UNAVAILABLE
  /\ COVID_UNAVAILABLE <> SLOT_USAGE.
Proof.
  split; [vm_compute; reflexivity|]. split; [vm_compute; discriminate|].
  split; [vm_compute; reflexivity|]. split; [vm_compute; reflexivity|].
  vm_compute. discriminate.
Qed.

(** ** The FAQ store *)

Lemma append_empty_r (s : string) : s ++ "" = s.
Proof. induction s as [|c s IH]; simpl; [reflexivity|]. rewrite IH. reflexivity. Qed.

Lemma lstrip_all_space_app (ws s : string) :
  all_space ws = true -> lstrip (ws ++ s) = lstrip s.
Proof.
  induction ws as [|c ws IH]; simpl; intro H; [reflexivity|].
  apply andb_true_iff in H as [Hc Hws]. rewrite Hc. apply IH, Hws.
Qed.

Lemma lstrip_all_space (ws : string) : all_space ws = true -> lstrip ws = "".
Proof.
  intro H. rewrite <- (append_empty_r ws). rewrite lstrip_all_space_app by exact H.
  reflexivity.
Qed.

Lemma rstrip_all_space (ws : string) : all_space ws = true -> rstrip ws = "".
Proof.
  induction ws as [|c ws IH]; simpl; intro H; [reflexivity|].
  apply andb_true_iff in H as [Hc Hws]. rewrite (IH Hws), Hc. reflexivity.
Qed.

Lemma rstrip_app_all_space (s ws : string) :
  all_space ws = true -> rstrip (s ++ ws) = rstrip s.
Proof.
  intro H. induction s as [|c s IH]; simpl.
  - apply rstrip_all_space, H.
  - rewrite IH. reflexivity.
Qed.

Lemma rstrip_app_fixed (s t : string) :
  t <> "" -> rstrip t = t -> rstrip (s ++ t) = s ++ t.
Proof.
  intros Hne Ht. induction s as [|c s IH]; simpl; [exact Ht|].
  rewrite IH. destruct (s ++ t) eqn:E; [|reflexivity].
  destruct s; simpl in E; [congruence|discriminate].
Qed.

Lemma tidy_nonempty (t : string) : tidy t -> t <> "".
Proof. intros [H _] ->. exact H. Qed.

Lemma lstrip_tidy_app (t s : string) : tidy t -> lstrip (t ++ s) = t ++ s.
Proof.
  intros [H _]. destruct t as [|c t]; [contradiction|].
  simpl. rewrite H. reflexivity.
Qed.

(** [strip] of a framed content: white space, a content that starts
    with a character that is no white space and ends in a tidy text,
    white space. *)
Lemma strip_framed (lead trail head text : string) (c : ascii) :
  all_space lead = true -> all_space trail = true ->
  isspace c = false -> tidy text ->
  strip (lead ++ String c head ++ text ++ trail) = String c head ++ text.
Proof.
  intros Hl Ht Hc Htidy. unfold strip.
  rewrite lstrip_all_space_app by exact Hl.
  change (lstrip (String c head ++ text ++ trail))
    with (if isspace c then lstrip (head ++ text ++ trail)
          else String c (head ++ text ++ trail)).
  rewrite Hc.
  assert (E : String c (head ++ text ++ trail) = (String c head ++ text) ++ trail).
  { simpl. f_equal. induction head as [|d head IH]; simpl; [reflexivity|].
    rewrite IH. reflexivity. }
  rewrite E, rstrip_app_all_space by exact Ht.
  change (String c head ++ text) with ((String c head) ++ text).
  apply rstrip_app_fixed; [apply tidy_nonempty, Htidy|apply Htidy].
Qed.

Lemma strip_tidy_framed (lead trail text : string) :
  all_space lead = true -> all_space trail = true -> tidy text ->
  strip (lead ++ text ++ trail) = text.
Proof.
  intros Hl Ht Htidy. unfold strip.
  rewrite lstrip_all_space_app by exact Hl.
  rewrite lstrip_tidy_app by exact Htidy.
  rewrite rstrip_app_all_space by exact Ht. apply Htidy.
Qed.

Lemma strip_blank (line : string) :
  all_space line = true -> nonempty (strip line) = false.
Proof. intro H. unfold strip. rewrite lstrip_all_space by exact H. reflexivity. Qed.

(** [replace] *)

Lemma replace_absent (old new s : string) :
  contains old s = false -> replace old new s = s.
Proof.
  unfold replace. induction s as [|c s IH]; intro H; [reflexivity|].
  cbn [contains] in H. apply orb_false_iff in H as [Hp Hc].
  cbn [replace_from]. rewrite Hp, (IH Hc). reflexivity.
Qed.

Lemma replace_marker_prefix (a b : ascii) (new rest : string) :
  replace (String a (String b "")) new (String a (String b rest)) =
  new ++ replace (String a (String b "")) new rest.
Proof.
  unfold replace. cbn [replace_from].
  pose proof (prefix_app (String a (String b "")) rest) as Hp.
  simpl append in Hp. rewrite Hp. f_equal.
Qed.

Lemma contains_after_space (a : ascii) (m ws t : string) :
  isspace a = false -> all_space ws = true ->
  contains (String a m) (ws ++ t) = contains (String a m) t.
Proof.
  intros Ha. induction ws as [|c ws IH]; intro H; [reflexivity|].
  simpl in H. apply andb_true_iff in H as [Hc Hws].
  change (String c ws ++ t) with (String c (ws ++ t)).
  cbn [contains]. rewrite (IH Hws).
  cbn [prefix]. destruct (ascii_dec a c) as [->|_]; [congruence|reflexivity].
Qed.

(** What the loop reads off a line: its text. *)
Lemma marked_line_text (a b : ascii) (text line : string) :
  isspace a = false ->
  tidy text ->
  contains (String a (String b "")) text = false ->
  marked_line (String a (String b "")) text line ->
  nonempty (strip line) = true /\
  strip (replace (String a (String b "")) "" (strip line)) = text.
Proof.
  intros Ha Htidy Habs Hline.
  destruct Hline as [lead trail Hl Ht|lead gap trail Hl Hg Ht].
  - rewrite strip_tidy_framed by assumption. split.
    + destruct text; [exfalso; apply (tidy_nonempty "" Htidy); reflexivity|reflexivity].
    + rewrite replace_absent by exact Habs.
      rewrite <- (append_empty_r text) at 1.
      apply (strip_tidy_framed "" "" text); auto.
  - change (String a (String b "") ++ gap ++ text ++ trail)
      with (String a (String b (gap ++ text ++ trail))).
    assert (E : String a (String b (gap ++ text ++ trail))
                = String a (String b gap) ++ text ++ trail) by reflexivity.
    rewrite E, strip_framed by assumption.
    split; [reflexivity|].
    change (String a (String b gap) ++ text) with (String a (String b (gap ++ text))).
    rewrite replace_marker_prefix. cbn [append].
    rewrite replace_absent.
    + rewrite <- (append_empty_r text) at 1.
      apply (strip_tidy_framed gap "" text); auto.
    + rewrite contains_after_space by assumption. exact Habs.
Qed.

Lemma flat_map_map {A B C : Type} (f : B -> list C) (h : A -> B) (l : list A) :
  flat_map f (map h l) = flat_map (fun x => f (h x)) l.
Proof.
  induction l as [|x l IH]; simpl; [reflexivity|]. rewrite IH. reflexivity.
Qed.

Lemma range_step2_SS (n : nat) :
  range_step2 (S (S n)) = 0 :: map (fun i => S (S i)) (range_step2 n).
Proof.
  unfold range_step2.
  replace (S (S n) + 1) with (S (S (n + 1))) by lia.
  cbn [Nat.div2]. rewrite <- cons_seq, <- seq_shift. cbn [map].
  f_equal. rewrite !map_map. apply map_ext. intro i. lia.
Qed.

(** The loop takes the lines two by two. *)
Lemma faq_loop_two (x y : string) (rest : list string) :
  faq_loop (x :: y :: rest) =
    (lower (strip (replace "Q:" "" x)), strip (replace "A:" "" y))
      :: faq_loop rest.
Proof.
  unfold faq_loop. cbn [List.length]. rewrite range_step2_SS.
  cbn [flat_map]. rewrite flat_map_map.
  replace (Nat.ltb (0 + 1) (S (S (List.length rest)))) with true by reflexivity.
  cbn [nth_error Nat.add app]. reflexivity.
Qed.

Lemma faq_loop_one (x : string) : faq_loop [x] = [].
Proof. reflexivity. Qed.

Lemma filter_blanks (blanks l : list string) :
  Forall (fun b => all_space b = true) blanks ->
  filter (fun line => nonempty (strip line)) (blanks ++ l) =
  filter (fun line => nonempty (strip line)) l.
Proof.
  induction 1 as [|b blanks Hb _ IH]; [reflexivity|].
  cbn [app filter]. rewrite (strip_blank b Hb). exact IH.
Qed.

(** On a well-formed source whose texts hold no marker of their own,
    [load_faq] returns the pairs of the source, one per pair and in
    order, the question lowercased and the answer as written. *)
Lemma load_faq_well_formed (f : list string) (ps : list (string * string)) :
  faq_source f ps ->
  load_faq (Some f) = map (fun p => (lower (fst p), snd p)) ps
  /\ List.length (load_faq (Some f)) = List.length ps.
Proof.
  intro H.
  assert (E : load_faq (Some f) = map (fun p => (lower (fst p), snd p)) ps).
  { unfold load_faq. cbv zeta.
    induction H as [|line f ps Hb _ IH
                    |ql al q a blanks f ps Hq Hqa Hql Hbl Ha Haa Hal _ IH].
    - reflexivity.
    - cbn [filter]. rewrite (strip_blank line Hb). exact IH.
    - destruct (marked_line_text "Q" ":" q ql eq_refl Hq Hqa Hql) as [Hn1 Hq1].
      destruct (marked_line_text "A" ":" a al eq_refl Ha Haa Hal) as [Hn2 Ha1].
      cbn [filter]. rewrite Hn1, filter_blanks by exact Hbl.
      cbn [filter]. rewrite Hn2. cbn [map].
      rewrite faq_loop_two. rewrite IH.
      change (replace "Q:" "" (strip ql))
        with (replace (String "Q" (String ":" "")) "" (strip ql)).
      change (replace "A:" "" (strip al))
        with (replace (String "A" (String ":" "")) "" (strip al)).
      rewrite Hq1, Ha1. reflexivity. }
  split; [exact E|]. rewrite E. apply length_map.
Qed.

(** The lemma at work on a source with blank lines and mixed markers. *)
Example load_faq_well_formed_demo :
  load_faq (Some ["Q: What is Dengue?" ++ nl; nl;
                  "  A:  A viral fever spread by mosquitoes. " ++ nl;
                  "How is it prevented?" ++ nl;
                  "Avoid mosquito bites." ++ nl])
  = [("what is dengue?", "A viral fever spread by mosquitoes.");
     ("how is it prevented?", "Avoid mosquito bites.")].
Proof.
  apply (load_faq_well_formed _
           [("What is Dengue?", "A viral fever spread by mosquitoes.");
            ("How is it prevented?", "Avoid mosquito bites.")]).
  apply (source_pair _ _ "What is Dengue?" "A viral fever spread by mosquitoes."
                     [nl]);
    try (split; reflexivity); try reflexivity.
  - apply (line_marked "Q:" "What is Dengue?" "" " " nl); reflexivity.
  - repeat constructor.
  - apply (line_marked "A:" "A viral fever spread by mosquitoes."
                       "  " "  " (" " ++ nl)); reflexivity.
  - apply (source_pair _ _ "How is it prevented?" "Avoid mosquito bites." []);
      try (split; reflexivity); try reflexivity.
    + apply (line_plain "Q:" "How is it prevented?" "" nl); reflexivity.
    + constructor.
    + apply (line_plain "A:" "Avoid mosquito bites." "" nl); reflexivity.
    + constructor.
Qed.

(** C4.  [load_faq] removes every occurrence of the marker, not only the
    leading one: on a well-formed source of one pair whose answer holds
    the characters "A:" it returns one pair and the question lowercased,
    but the answer is not the text of the source. *)
Theorem load_faq_inner_marker :
  load_faq (Some ["Q: What are the types of hepatitis?" ++ nl;
                  "A: Hepatitis A: spread by contaminated food." ++ nl])
  = [("what are the types of hepatitis?",
      "Hepatitis  spread by contaminated food.")]
  /\ snd (hd ("", "")
            (load_faq (Some ["Q: What are the types of hepatitis?" ++ nl;
                            "A: Hepatitis A: spread by contaminated food." ++ nl])))
     <> "Hepatitis A: spread by contaminated food.".
Proof. split; [vm_compute; reflexivity|]. vm_compute. discriminate. Qed.

(* ===================================================================== *)
(** * Further properties of the code *)

(** ** Case folding and stripping *)

Lemma lower_char_idem (c : ascii) : lower_char (lower_char c) = lower_char c.
Proof.
  destruct c as [b0 b1 b2 b3 b4 b5 b6 b7].
  destruct b0, b1, b2, b3, b4, b5, b6, b7; reflexivity.
Qed.

Lemma lower_idem (s : string) : lower (lower s) = lower s.
Proof.
  induction s as [|c s IH]; simpl; [reflexivity|].
  rewrite lower_char_idem, IH. reflexivity.
Qed.

Lemma lower_app (s t : string) : lower (s ++ t) = lower s ++ lower t.
Proof.
  induction s as [|c s IH]; simpl; [reflexivity|]. rewrite IH. reflexivity.
Qed.

Lemma nonempty_lower (s : string) : nonempty (lower s) = nonempty s.
Proof. destruct s; reflexivity. Qed.

Lemma all_space_lower (s : string) : all_space (lower s) = all_space s.
Proof.
  induction s as [|c s IH]; simpl; [reflexivity|].
  rewrite isspace_lower_char, IH. reflexivity.
Qed.

Lemma lstrip_lower (s : string) : lstrip (lower s) = lower (lstrip s).
Proof.
  induction s as [|c s IH]; simpl; [reflexivity|].
  rewrite isspace_lower_char. destruct (isspace c); [exact IH|reflexivity].
Qed.

Lemma rstrip_lower (s : string) : rstrip (lower s) = lower (rstrip s).
Proof.
  induction s as [|c s IH]; simpl; [reflexivity|].
  rewrite IH, isspace_lower_char.
  destruct (rstrip s); simpl; [destruct (isspace c)|]; reflexivity.
Qed.

Lemma strip_lower (s : string) : strip (lower s) = lower (strip s).
Proof. unfold strip. rewrite lstrip_lower, rstrip_lower. reflexivity. Qed.

Lemma rstrip_idem (s : string) : rstrip (rstrip s) = rstrip s.
Proof.
  induction s as [|c s IH]; [reflexivity|].
  cbn [rstrip]. destruct (rstrip s) as [|d r] eqn:E.
  - destruct (isspace c) eqn:Ec; [reflexivity|].
    cbn [rstrip]. rewrite Ec. reflexivity.
  - cbn [rstrip]. cbn [rstrip] in IH. rewrite IH. reflexivity.
Qed.

Lemma lstrip_head (s : string) :
  lstrip s = "" \/ exists c t, lstrip s = String c t /\ isspace c = false.
Proof.
  induction s as [|c s IH]; simpl; [left; reflexivity|].
  destruct (isspace c) eqn:E; [exact IH|]. right. eauto.
Qed.

Lemma rstrip_keeps_head (c : ascii) (t : string) :
  isspace c = false -> exists r, rstrip (String c t) = String c r.
Proof.
  intro H. cbn [rstrip]. destruct (rstrip t); [rewrite H|]; eauto.
Qed.

Lemma strip_idem (s : string) : strip (strip s) = strip s.
Proof.
  unfold strip. destruct (lstrip_head s) as [E|(c & t & E & Hc)]; rewrite E.
  - reflexivity.
  - destruct (rstrip_keeps_head c t Hc) as (r & Er).
    rewrite Er. cbn [lstrip]. rewrite Hc, <- Er. apply rstrip_idem.
Qed.

Lemma lstrip_app (s t : string) :
  lstrip (s ++ t) = if all_space s then lstrip t else lstrip s ++ t.
Proof.
  induction s as [|c s IH]; simpl; [reflexivity|].
  destruct (isspace c); [exact IH|reflexivity].
Qed.

(** White space around a text does not survive [strip]. *)
Lemma strip_padded (lead trail s : string) :
  all_space lead = true -> all_space trail = true ->
  strip (lead ++ s ++ trail) = strip s.
Proof.
  intros Hl Ht. unfold strip. rewrite lstrip_all_space_app by exact Hl.
  rewrite lstrip_app. destruct (all_space s) eqn:E.
  - rewrite (lstrip_all_space trail Ht), (lstrip_all_space s E). reflexivity.
  - apply rstrip_app_all_space, Ht.
Qed.

(** ** Tokens under case folding and padding *)

Lemma split_from_lower (s : string) :
  forall tok,
    split_from (lower tok) (lower s) = map lower (split_from tok s).
Proof.
  induction s as [|c s IH]; intro tok; simpl.
  - destruct tok; reflexivity.
  - rewrite isspace_lower_char. destruct (isspace c).
    + destruct tok; simpl; [apply (IH "")|f_equal; apply (IH "")].
    + rewrite <- IH, lower_app. reflexivity.
Qed.

Lemma split_lower (s : string) : split (lower s) = map lower (split s).
Proof. apply (split_from_lower s ""). Qed.

Lemma split_from_lead (ws s : string) :
  all_space ws = true -> split_from "" (ws ++ s) = split_from "" s.
Proof.
  induction ws as [|c ws IH]; simpl; intro H; [reflexivity|].
  apply andb_true_iff in H as [Hc Hws]. rewrite Hc. apply IH, Hws.
Qed.

Lemma split_from_blank (ws : string) :
  all_space ws = true -> forall tok, split_from tok ws = split_from tok "".
Proof.
  induction ws as [|c ws IH]; simpl; intros H tok; [reflexivity|].
  apply andb_true_iff in H as [Hc Hws]. rewrite Hc.
  destruct tok; rewrite (IH Hws ""); reflexivity.
Qed.

Lemma split_from_trail (s ws : string) :
  all_space ws = true -> forall tok, split_from tok (s ++ ws) = split_from tok s.
Proof.
  intro H. induction s as [|c s IH]; intro tok.
  - apply split_from_blank, H.
  - simpl. destruct (isspace c); [destruct tok|]; rewrite IH; reflexivity.
Qed.

Lemma split_padded (lead trail s : string) :
  all_space lead = true -> all_space trail = true ->
  split (lead ++ s ++ trail) = split s.
Proof.
  intros Hl Ht. unfold split.
  rewrite split_from_lead by exact Hl. apply split_from_trail, Ht.
Qed.

Lemma greet_loop_lower (rnd : nat) (ws : list string) :
  greet_loop rnd (map lower ws) = greet_loop rnd ws.
Proof.
  induction ws as [|w ws IH]; [reflexivity|].
  cbn [map greet_loop]. rewrite lower_idem, IH. reflexivity.
Qed.

Lemma greet_lower (rnd : nat) (txt : string) :
  maybe_greet rnd (lower txt) = maybe_greet rnd txt.
Proof.
  unfold maybe_greet. rewrite split_lower. apply greet_loop_lower.
Qed.

(** X-greet.  The greeting check does not see the case of the message:
    changing the case of its letters changes neither whether it greets
    nor the greeting drawn. *)
Theorem maybe_greet_lower (rnd : nat) (txt txt' : string) :
  lower txt = lower txt' ->
  maybe_greet rnd txt = maybe_greet rnd txt'.
Proof.
  intro H. rewrite <- (greet_lower rnd txt), <- (greet_lower rnd txt'), H.
  reflexivity.
Qed.

Lemma maybe_greet_lower_witness :
  maybe_greet 1 "NAMASTE doctor" = maybe_greet 1 "Namaste Doctor".
Proof.
  apply (maybe_greet_lower 1 "NAMASTE doctor" "Namaste Doctor"). reflexivity.
Defined.

(** ** The router under case folding and padding *)

(** X-case.  The router is case-insensitive: a message and its lowercase
    form get the same reply, whatever branch answers. *)
Theorem handle_user_message_lower
        (requests_get : string -> list (string * string) -> Z -> result Response)
        (py_repr : JSON -> string)
        (fromtimestamp_strftime : Q -> result string)
        (tfidf_cosine : list string -> string -> result (list Q))
        (argsort : list Q -> list nat) (rnd : nat)
        (fp : list (string * string)) (msg : string) :
  handle_user_message requests_get py_repr fromtimestamp_strftime
                      tfidf_cosine argsort rnd fp (lower msg)
  = handle_user_message requests_get py_repr fromtimestamp_strftime
                        tfidf_cosine argsort rnd fp msg.
Proof.
  unfold handle_user_message.
  rewrite nonempty_lower, greet_lower, lower_idem. reflexivity.
Qed.

Lemma nonempty_app_mid (lead s trail : string) :
  nonempty s = true -> nonempty (lead ++ s ++ trail) = true.
Proof.
  intro H. destruct lead; [|reflexivity]. destruct s; [discriminate|reflexivity].
Qed.

(** X-pad.  White space before and after a non-empty message does not
    change the reply. *)
Theorem handle_user_message_padded
        (requests_get : string -> list (string * string) -> Z -> result Response)
        (py_repr : JSON -> string)
        (fromtimestamp_strftime : Q -> result string)
        (tfidf_cosine : list string -> string -> result (list Q))
        (argsort : list Q -> list nat) (rnd : nat)
        (fp : list (string * string)) (lead msg trail : string) :
  nonempty msg = true ->
  all_space lead = true -> all_space trail = true ->
  handle_user_message requests_get py_repr fromtimestamp_strftime
                      tfidf_cosine argsort rnd fp (lead ++ msg ++ trail)
  = handle_user_message requests_get py_repr fromtimestamp_strftime
                        tfidf_cosine argsort rnd fp msg.
Proof.
  intros Hne Hl Ht. unfold handle_user_message, maybe_greet.
  rewrite (nonempty_app_mid lead msg trail Hne), Hne.
  rewrite split_padded by assumption.
  rewrite !lower_app, strip_padded by (rewrite all_space_lower; assumption).
  reflexivity.
Qed.

Lemma handle_user_message_padded_witness :
  handle_user_message offline no_repr no_clock no_scores argsort_stable 0
                      demo_pairs ("  " ++ "Namaste" ++ nl)
  = handle_user_message offline no_repr no_clock no_scores argsort_stable 0
                        demo_pairs "Namaste".
Proof.
  apply (handle_user_message_padded offline no_repr no_clock no_scores
           argsort_stable 0 demo_pairs "  " "Namaste" nl);
    reflexivity.
Defined.

(** ** Replies are never empty *)

Ltac step_bind :=
  match goal with
  | |- context [bind ?m _] => destruct m eqn:?; simpl
  | |- context [if ?b then _ else _] => destruct b eqn:?; simpl
  end.

Lemma get_covid_update_india_nonempty
      (requests_get : string -> list (string * string) -> Z -> result Response)
      (py_repr : JSON -> string)
      (fromtimestamp_strftime : Q -> result string) :
  nonempty (get_covid_update_india requests_get py_repr fromtimestamp_strftime)
  = true.
Proof.
  unfold get_covid_update_india. cbv zeta.
  repeat step_bind; reflexivity.
Qed.

Lemma get_who_outbreak_headlines_nonempty
      (requests_get : string -> list (string * string) -> Z -> result Response)
      (limit : nat) :
  nonempty (get_who_outbreak_headlines requests_get limit) = true.
Proof.
  unfold get_who_outbreak_headlines. cbv zeta.
  repeat step_bind; try reflexivity.
Qed.

Lemma get_cowin_slots_by_pin_nonempty
      (requests_get : string -> list (string * string) -> Z -> result Response)
      (py_repr : JSON -> string) (pincode date : string) :
  nonempty (get_cowin_slots_by_pin requests_get py_repr pincode date) = true.
Proof.
  unfold get_cowin_slots_by_pin. cbv zeta.
  destruct (requests_get _ _ _) as [r|e]; [|reflexivity]. simpl.
  destruct (negb _); [reflexivity|].
  destruct (json r) as [j|e]; [|reflexivity]. simpl.
  destruct (py_get j "sessions" (JList [])) as [data|e]; [|reflexivity]. simpl.
  destruct (negb (truthy data)); [reflexivity|].
  destruct (py_slice 10 data) as [sessions|e]; [|reflexivity]. simpl.
  destruct (mapM (slot_line py_repr) sessions) as [lines|e]; [|reflexivity].
  destruct lines; reflexivity.
Qed.

Lemma if_truthy_Some (o : option string) (s : string) :
  if_truthy o = Some s -> o = Some s /\ nonempty s = true.
Proof.
  destruct o as [t|]; simpl; [|discriminate].
  destruct (nonempty t) eqn:E; [|discriminate].
  intro H. inversion H; subst. auto.
Qed.

Lemma nonempty_app_l (s t : string) :
  nonempty s = true -> nonempty (s ++ t) = true.
Proof. destruct s; [discriminate|reflexivity]. Qed.

(** The run of the router once the message is past the keyword
    branches, and its success everywhere else. *)
Lemma handle_user_message_faq_branch
      (requests_get : string -> list (string * string) -> Z -> result Response)
      (py_repr : JSON -> string)
      (fromtimestamp_strftime : Q -> result string)
      (tfidf_cosine : list string -> string -> result (list Q))
      (argsort : list Q -> list nat) (rnd : nat)
      (fp : list (string * string)) (msg : string) :
  reaches_faq rnd msg = true ->
  handle_user_message requests_get py_repr fromtimestamp_strftime
                      tfidf_cosine argsort rnd fp msg
  = (ans <- faq_response tfidf_cosine argsort fp (strip (lower msg)) THRESHOLD ;;
     match if_truthy ans with
     | Some a => Ok a
     | None => Ok APOLOGY
     end).
Proof.
  unfold reaches_faq, handle_user_message. rewrite !andb_true_iff.
  intros [[[[Hne Hg] Hc] Hw] Hv].
  rewrite Hne. cbn [negb].
  destruct (if_truthy (maybe_greet rnd msg)); [discriminate|].
  cbv zeta. apply negb_true_iff in Hc, Hw, Hv. rewrite Hc, Hw, Hv. reflexivity.
Qed.

Lemma handle_user_message_keyword_branch
      (requests_get : string -> list (string * string) -> Z -> result Response)
      (py_repr : JSON -> string)
      (fromtimestamp_strftime : Q -> result string)
      (tfidf_cosine : list string -> string -> result (list Q))
      (argsort : list Q -> list nat) (rnd : nat)
      (fp : list (string * string)) (msg : string) :
  reaches_faq rnd msg = false ->
  exists reply,
    handle_user_message requests_get py_repr fromtimestamp_strftime
                        tfidf_cosine argsort rnd fp msg = Ok reply
    /\ nonempty reply = true.
Proof.
  unfold reaches_faq, handle_user_message. intro H.
  destruct (nonempty msg); cbn [negb andb] in *; [|eexists; split; reflexivity].
  destruct (if_truthy (maybe_greet rnd msg)) as [g|] eqn:Eg.
  { apply if_truthy_Some in Eg as [_ Hg].
    eexists; split; [reflexivity|apply nonempty_app_l, Hg]. }
  cbv zeta. cbn [andb] in H.
  destruct (contains "covid" _ || contains "corona" _).
  { eexists; split; [reflexivity|apply get_covid_update_india_nonempty]. }
  destruct (contains "who" _ && _).
  { eexists; split; [reflexivity|apply get_who_outbreak_headlines_nonempty]. }
  destruct ((contains "vaccination" _ || contains "vaccine" _) && _).
  2:{ discriminate. }
  destruct (re_search PIN_RE _); [destruct (re_search DATE_RE _)|];
    eexists; split; try reflexivity.
  apply get_cowin_slots_by_pin_nonempty.
Qed.

Lemma handle_user_message_Ok_nonempty
        (requests_get : string -> list (string * string) -> Z -> result Response)
        (py_repr : JSON -> string)
        (fromtimestamp_strftime : Q -> result string)
        (tfidf_cosine : list string -> string -> result (list Q))
        (argsort : list Q -> list nat) (rnd : nat)
        (fp : list (string * string)) (msg reply : string) :
  handle_user_message requests_get py_repr fromtimestamp_strftime
                      tfidf_cosine argsort rnd fp msg = Ok reply ->
  reply <> "".
Proof.
  intros H E. subst reply.
  destruct (reaches_faq rnd msg) eqn:R.
  - rewrite (handle_user_message_faq_branch _ _ _ _ _ _ _ _ R) in H.
    destruct (faq_response _ _ _ _ _) as [ans|e]; simpl in H; [|discriminate].
    destruct (if_truthy ans) as [a|] eqn:Ea.
    + apply if_truthy_Some in Ea as [_ Ha]. inversion H; subst. discriminate.
    + inversion H.
  - destruct (handle_user_message_keyword_branch requests_get py_repr
                fromtimestamp_strftime tfidf_cosine argsort rnd fp msg R)
      as (r & Hr & Hn).
    rewrite Hr in H. inversion H; subst. discriminate.
Qed.

(** X-nonempty.  Whatever the message, the corpus and the answers of the
    outside world, a reply the router returns is not the empty string. *)
Theorem handle_user_message_reply_nonempty
        (requests_get : string -> list (string * string) -> Z -> result Response)
        (py_repr : JSON -> string)
        (fromtimestamp_strftime : Q -> result string)
        (tfidf_cosine : list string -> string -> result (list Q))
        (argsort : list Q -> list nat) (rnd : nat)
        (fp : list (string * string)) (msg reply : string) :
  handle_user_message requests_get py_repr fromtimestamp_strftime
                      tfidf_cosine argsort rnd fp msg = Ok reply ->
  reply <> "".
Proof. apply handle_user_message_Ok_nonempty. Qed.

Lemma handle_user_message_reply_nonempty_witness :
  handle_user_message offline no_repr no_clock no_scores argsort_stable 0
                      demo_pairs "hello there"
  = Ok "Hello! Ask me about symptoms, prevention, vaccines, or outbreaks."
  /\ "Hello! Ask me about symptoms, prevention, vaccines, or outbreaks." <> "".
Proof.
  split; [reflexivity|].
  apply (handle_user_message_reply_nonempty offline no_repr no_clock no_scores
           argsort_stable 0 demo_pairs "hello there").
  reflexivity.
Defined.

(** ** Where the router can fail *)

(** X-raise.  The router raises only in its last branch: an exception
    leaves [handle_user_message] exactly when the message gets past the
    greeting and keyword branches and the FAQ matcher raises it. *)
Theorem handle_user_message_raises
        (requests_get : string -> list (string * string) -> Z -> result Response)
        (py_repr : JSON -> string)
        (fromtimestamp_strftime : Q -> result string)
        (tfidf_cosine : list string -> string -> result (list Q))
        (argsort : list Q -> list nat) (rnd : nat)
        (fp : list (string * string)) (msg : string) (e : exn) :
  handle_user_message requests_get py_repr fromtimestamp_strftime
                      tfidf_cosine argsort rnd fp msg = Raise e
  <-> reaches_faq rnd msg = true
      /\ faq_response tfidf_cosine argsort fp (strip (lower msg)) THRESHOLD
         = Raise e.
Proof.
  destruct (reaches_faq rnd msg) eqn:R.
  - rewrite (handle_user_message_faq_branch _ _ _ _ _ _ _ _ R).
    destruct (faq_response _ _ _ _ _) as [ans|e']; simpl.
    + destruct (if_truthy ans); split; try discriminate;
        intros [_ H]; discriminate.
    + split; [intro H; split; [reflexivity|congruence]|intros [_ H]; congruence].
  - destruct (handle_user_message_keyword_branch requests_get py_repr
                fromtimestamp_strftime tfidf_cosine argsort rnd fp msg R)
      as (r & Hr & _).
    rewrite Hr. split; [discriminate|intros [H _]; discriminate].
Qed.

(** X-matcher-raise.  When the similarity pipeline, each time it
    answers, gives one score per question and [argsort] sorts as it
    promises, the matcher raises exactly the exceptions of the pipeline,
    and only with a non-empty corpus. *)
Theorem faq_response_raises
        (tfidf_cosine : list string -> string -> result (list Q))
        (argsort : list Q -> list nat)
        (fp : list (string * string)) (text : string) (thr : Q) (e : exn) :
  (forall sims,
      tfidf_cosine (questions fp) (strip (lower text)) = Ok sims ->
      List.length sims = List.length (questions fp)
      /\ is_argsort sims (argsort sims) = true) ->
  (faq_response tfidf_cosine argsort fp text thr = Raise e
   <-> questions fp <> []
       /\ tfidf_cosine (questions fp) (strip (lower text)) = Raise e).
Proof.
  intro Hlib.
  assert (Hcase : questions fp = [] \/ questions fp <> []).
  { destruct (questions fp); [left; reflexivity|right; discriminate]. }
  destruct Hcase as [Hq|Hq].
  - unfold faq_response. rewrite Hq.
    split; [intro H; discriminate H|intros [H _]; congruence].
  - destruct (tfidf_cosine (questions fp) (strip (lower text))) as [sims|e'] eqn:Es.
    + destruct (Hlib sims eq_refl) as [Hlen Hsort].
      split; [|intros [_ H]; discriminate].
      intro H. exfalso.
      assert (Hne : sims <> []).
      { intro E. subst sims. simpl in Hlen.
        destruct (questions fp); [congruence|discriminate]. }
      destruct (argsort_top sims (argsort sims) Hne Hsort)
        as (idx & Hlast & Hidx & _).
      rewrite (faq_response_scored _ _ _ _ thr sims idx Hq Es Hlast Hidx) in H.
      destruct (Qltb (score_at sims idx) thr); [discriminate H|].
      destruct (nth_error (answers fp) idx) as [a|] eqn:Ea.
      * apply index_Ok in Ea. rewrite Ea in H. discriminate H.
      * apply nth_error_None in Ea.
        rewrite answers_length, <- questions_length in Ea. lia.
    + clear Hlib.
      assert (Hres : faq_response tfidf_cosine argsort fp text thr = Raise e').
      { unfold faq_response. destruct (questions fp); [congruence|].
        rewrite Es. reflexivity. }
      rewrite Hres.
      split; [intro H; split; [exact Hq|congruence]|intros [_ H]; congruence].
Qed.

Lemma faq_response_raises_witness :
  faq_response no_scores argsort_stable demo_pairs "what is flu" THRESHOLD
  = Raise ValueError.
Proof.
  apply (faq_response_raises no_scores argsort_stable demo_pairs
           "what is flu" THRESHOLD ValueError).
  - intros sims H. discriminate.
  - split; [discriminate|reflexivity].
Defined.

(** X-query.  The matcher folds case and strips the query itself, so
    handing it the text the router already lowercased and stripped gives
    the answer it gives on the raw text. *)
Theorem faq_response_normalised_query
        (tfidf_cosine : list string -> string -> result (list Q))
        (argsort : list Q -> list nat)
        (fp : list (string * string)) (text : string) (thr : Q) :
  faq_response tfidf_cosine argsort fp (strip (lower text)) thr
  = faq_response tfidf_cosine argsort fp text thr.
Proof.
  unfold faq_response.
  replace (strip (lower (strip (lower text)))) with (strip (lower text));
    [reflexivity|].
  rewrite (strip_lower (strip (lower text))), strip_idem, <- strip_lower.
  rewrite lower_idem. reflexivity.
Qed.

(** X-blank.  A message of white space only is not the empty message:
    it has no token and no keyword, so it reaches the FAQ matcher with
    the empty query, and with an empty corpus it gets the apology, not
    the prompt. *)
Theorem handle_user_message_blank
        (requests_get : string -> list (string * string) -> Z -> result Response)
        (py_repr : JSON -> string)
        (fromtimestamp_strftime : Q -> result string)
        (tfidf_cosine : list string -> string -> result (list Q))
        (argsort : list Q -> list nat) (rnd : nat)
        (fp : list (string * string)) (msg : string) :
  nonempty msg = true ->
  all_space msg = true ->
  handle_user_message requests_get py_repr fromtimestamp_strftime
                      tfidf_cosine argsort rnd fp msg
  = (ans <- faq_response tfidf_cosine argsort fp "" THRESHOLD ;;
     match if_truthy ans with
     | Some a => Ok a
     | None => Ok APOLOGY
     end)
  /\ handle_user_message requests_get py_repr fromtimestamp_strftime
                         tfidf_cosine argsort rnd [] msg
     = Ok APOLOGY.
Proof.
  intros Hne Hsp.
  assert (Hstrip : strip (lower msg) = "").
  { rewrite strip_lower. unfold strip.
    rewrite (lstrip_all_space msg Hsp). reflexivity. }
  assert (Hgreet : maybe_greet rnd msg = None).
  { unfold maybe_greet, split. rewrite (split_from_blank msg Hsp ""). reflexivity. }
  assert (R : reaches_faq rnd msg = true).
  { unfold reaches_faq. rewrite Hne, Hgreet, Hstrip. reflexivity. }
  split.
  - rewrite (handle_user_message_faq_branch _ _ _ _ _ _ _ _ R), Hstrip.
    reflexivity.
  - rewrite (handle_user_message_faq_branch _ _ _ _ _ _ _ _ R). reflexivity.
Qed.

Lemma handle_user_message_blank_witness :
  handle_user_message offline no_repr no_clock no_scores argsort_stable 0
                      [] ("   " ++ nl)
  = Ok APOLOGY.
Proof.
  apply (handle_user_message_blank offline no_repr no_clock no_scores
           argsort_stable 0 demo_pairs ("   " ++ nl)); reflexivity.
Defined.

(** ** More on the FAQ store *)

Lemma pairs_ind (P : list string -> Prop) :
  P [] -> (forall x, P [x]) -> (forall x y l, P l -> P (x :: y :: l)) ->
  forall l, P l.
Proof.
  intros H0 H1 H2 l.
  assert (H : P l /\ forall x, P (x :: l)).
  { induction l as [|y l [IHl IHx]]; [auto|].
    split; [apply IHx|]. intro x. apply H2, IHl. }
  apply H.
Qed.

Lemma faq_loop_length (lines : list string) :
  List.length (faq_loop lines) = Nat.div2 (List.length lines).
Proof.
  induction lines as [| x | x y l IH] using pairs_ind; [reflexivity..|].
  rewrite faq_loop_two. simpl. rewrite IH. reflexivity.
Qed.

Lemma lstrip_empty_all_space (s : string) : lstrip s = "" -> all_space s = true.
Proof.
  induction s as [|c s IH]; simpl; [reflexivity|].
  destruct (isspace c); [exact IH|discriminate].
Qed.

Lemma nonempty_strip (s : string) : nonempty (strip s) = negb (all_space s).
Proof.
  destruct (all_space s) eqn:E; [apply strip_blank, E|].
  unfold strip. destruct (lstrip_head s) as [H|(c & t & H & Hc)].
  - apply lstrip_empty_all_space in H. congruence.
  - rewrite H. destruct (rstrip_keeps_head c t Hc) as (r & Hr).
    rewrite Hr. reflexivity.
Qed.

(** X-count.  [load_faq] returns one pair for every two lines that are
    not blank; a last line left without a partner is dropped, and a
    missing file gives no pair. *)
Theorem load_faq_count (f : list string) :
  List.length (load_faq (Some f))
  = Nat.div2 (List.length (filter (fun line => negb (all_space line)) f))
  /\ load_faq None = [].
Proof.
  split; [|reflexivity].
  unfold load_faq. cbv zeta. rewrite faq_loop_length, length_map.
  f_equal. f_equal. apply filter_ext. intro line. apply nonempty_strip.
Qed.

Lemma faq_loop_in (lines : list string) (q a : string) :
  In (q, a) (faq_loop lines) ->
  exists x y, q = lower (strip (replace "Q:" "" x))
              /\ a = strip (replace "A:" "" y).
Proof.
  induction lines as [| x | x y l IH] using pairs_ind.
  - intros [].
  - intros [].
  - rewrite faq_loop_two. intros [H|H].
    + inversion H. eauto.
    + apply IH, H.
Qed.

(** X-normal.  Whatever the file holds, every question [load_faq]
    returns is in lower case with no white space around it, and every
    answer has no white space around it. *)
Theorem load_faq_normalised (file : option (list string)) (q a : string) :
  In (q, a) (load_faq file) ->
  lower q = q /\ strip q = q /\ strip a = a.
Proof.
  destruct file as [f|]; [|intros []].
  unfold load_faq. cbv zeta. intro H.
  apply faq_loop_in in H as (x & y & -> & ->).
  split; [apply lower_idem|]. split.
  - rewrite <- strip_lower, strip_idem. reflexivity.
  - apply strip_idem.
Qed.

Lemma load_faq_normalised_witness :
  lower "what is flu?" = "what is flu?"
  /\ strip "what is flu?" = "what is flu?"
  /\ strip "A viral infection." = "A viral infection.".
Proof.
  apply (load_faq_normalised
           (Some ["  Q: What is FLU?  " ++ nl; "A: A viral infection. " ++ nl])).
  left. reflexivity.
Defined.

(** X-blank-lines.  A blank line, wherever it stands in the file, even
    between a question and its answer, does not change what is loaded. *)
Theorem load_faq_blank_line (f1 f2 : list string) (blank : string) :
  all_space blank = true ->
  load_faq (Some (f1 ++ blank :: f2)%list) = load_faq (Some (f1 ++ f2)%list).
Proof.
  intro H. unfold load_faq. cbv zeta.
  rewrite !filter_app. cbn [filter]. rewrite (strip_blank blank H). reflexivity.
Qed.

Lemma load_faq_blank_line_witness :
  load_faq (Some (List.app ["Q: What is flu?" ++ nl]
                           (("  " ++ nl) :: ["A: A viral infection." ++ nl])))
  = load_faq (Some (List.app ["Q: What is flu?" ++ nl]
                             ["A: A viral infection." ++ nl])).
Proof.
  apply (load_faq_blank_line ["Q: What is flu?" ++ nl]
                             ["A: A viral infection." ++ nl] ("  " ++ nl)).
  reflexivity.
Defined.

(** X-source.  On a well-formed source (question line, answer line,
    blank lines anywhere, each text optionally behind its marker) whose
    texts hold no marker of their own, [load_faq] returns exactly the
    pairs of the source, in order, each question in lower case and each
    answer as written. *)
Theorem load_faq_marker_free_source
        (f : list string) (ps : list (string * string)) :
  faq_source f ps ->
  load_faq (Some f) = map (fun p => (lower (fst p), snd p)) ps
  /\ List.length (load_faq (Some f)) = List.length ps.
Proof. apply load_faq_well_formed. Qed.

Lemma load_faq_marker_free_source_witness :
  load_faq (Some ["Q: What is Dengue?" ++ nl; nl;
                  "  A:  A viral fever spread by mosquitoes. " ++ nl])
  = [("what is dengue?", "A viral fever spread by mosquitoes.")]
  /\ List.length
       (load_faq (Some ["Q: What is Dengue?" ++ nl; nl;
                        "  A:  A viral fever spread by mosquitoes. " ++ nl]))
     = 1.
Proof.
  apply (load_faq_marker_free_source _
           [("What is Dengue?", "A viral fever spread by mosquitoes.")]).
  apply (source_pair _ _ "What is Dengue?" "A viral fever spread by mosquitoes."
                     [nl] [] []).
  - split; reflexivity.
  - reflexivity.
  - apply (line_marked "Q:" "What is Dengue?" "" " " nl); reflexivity.
  - constructor; [reflexivity|constructor].
  - split; reflexivity.
  - reflexivity.
  - apply (line_marked "A:" "A viral fever spread by mosquitoes."
                       "  " "  " (" " ++ nl)); reflexivity.
  - constructor.
Defined.

(** ** What the two patterns take *)

Lemma is_digit_word (c : ascii) : is_digit c = true -> is_word c = true.
Proof. intro H. unfold is_word. rewrite H. reflexivity. Qed.

Lemma boundary_before_word (prev : option ascii) (c : ascii) :
  is_word c = true -> word_boundary prev (Some c) = true ->
  is_word_opt prev = false.
Proof.
  unfold word_boundary. simpl. intros ->. destruct (is_word_opt prev); auto.
Qed.

Lemma boundary_after_word (c : ascii) (next : option ascii) :
  is_word c = true -> word_boundary (Some c) next = true ->
  is_word_opt next = false.
Proof.
  unfold word_boundary. simpl. intros ->. destruct (is_word_opt next); auto.
Qed.

(** X-delimited.  The PIN the router extracts is a whole run: six
    digits with no letter, digit or underscore right before or right
    after them in the text, so six digits inside a longer number are
    never taken; and likewise the ten characters of the date. *)
Theorem re_search_delimited (text : string) :
  (forall pin, re_search PIN_RE text = Some pin ->
     exists pre post,
       text = pre ++ pin ++ post /\ String.length pin = 6
       /\ is_word_opt (last_or None pre) = false
       /\ is_word_opt (head_char post) = false)
  /\ (forall date, re_search DATE_RE text = Some date ->
        exists pre post,
          text = pre ++ date ++ post /\ String.length date = 10
          /\ is_word_opt (last_or None pre) = false
          /\ is_word_opt (head_char post) = false).
Proof.
  split; intros m H.
  - destruct (re_search_sound _ _ _ H) as [Hshape _].
    apply search_from_delimited in H as (pre & post & Hs & B1 & B2).
    exists pre, post.
    destruct m as [|c1 [|c2 [|c3 [|c4 [|c5 [|c6 [|c7 r]]]]]]];
      simpl in Hshape; try discriminate;
      repeat rewrite andb_true_iff in Hshape;
      try (exfalso; intuition discriminate).
    destruct Hshape as (H1 & _ & _ & _ & _ & H6 & _).
    split; [exact Hs|]. split; [reflexivity|]. split.
    + apply (boundary_before_word _ c1); [apply is_digit_word, H1|exact B1].
    + apply (boundary_after_word c6); [apply is_digit_word, H6|exact B2].
  - destruct (re_search_sound _ _ _ H) as [Hshape _].
    apply search_from_delimited in H as (pre & post & Hs & B1 & B2).
    exists pre, post.
    destruct m as [|c1 [|c2 [|c3 [|c4 [|c5 [|c6 [|c7 [|c8 [|c9 [|c10 [|c11 r]]]]]]]]]]];
      simpl in Hshape; try discriminate;
      repeat rewrite andb_true_iff in Hshape;
      try (exfalso; intuition discriminate).
    destruct Hshape as (H1 & _ & _ & _ & _ & _ & _ & _ & _ & H10 & _).
    split; [exact Hs|]. split; [reflexivity|]. split.
    + apply (boundary_before_word _ c1); [apply is_digit_word, H1|exact B1].
    + apply (boundary_after_word c10); [apply is_digit_word, H10|exact B2].
Qed.

Lemma re_search_delimited_witness :
  exists pre post,
    "vaccine slot pin:700001, 31-08-2025" = pre ++ "700001" ++ post
    /\ String.length "700001" = 6
    /\ is_word_opt (last_or None pre) = false
    /\ is_word_opt (head_char post) = false.
Proof.
  destruct (re_search_delimited "vaccine slot pin:700001, 31-08-2025") as [Hpin _].
  apply (Hpin "700001"). reflexivity.
Defined.

(** ** The slot listing *)

Lemma mapM_raise {A B : Type} (f : A -> result B) (l : list A) (x : A) (e0 : exn) :
  In x l -> f x = Raise e0 -> exists e, mapM f l = Raise e.
Proof.
  induction l as [|a l IH]; intros Hin Hx; [contradiction|].
  simpl. destruct Hin as [->|Hin].
  - rewrite Hx. simpl. eauto.
  - destruct (f a); simpl; [|eauto].
    destruct (IH Hin Hx) as (e & He). rewrite He. simpl. eauto.
Qed.

Lemma mapM_ok {A B : Type} (f : A -> result B) (P : B -> Prop) (l : list A) :
  (forall x, In x l -> exists b, f x = Ok b /\ P b) ->
  exists bs, mapM f l = Ok bs /\ List.length bs = List.length l /\ Forall P bs.
Proof.
  induction l as [|a l IH]; intro H.
  - exists []. simpl. auto.
  - destruct (H a (or_introl eq_refl)) as (b & Hb & Pb).
    destruct IH as (bs & Hbs & Hlen & HP).
    { intros x Hx. apply H. right. exact Hx. }
    exists (b :: bs). simpl. rewrite Hb. simpl. rewrite Hbs. simpl.
    split; [reflexivity|]. split; [congruence|]. constructor; assumption.
Qed.

Lemma slot_line_dict (py_repr : JSON -> string) (s : JSON) :
  is_dict s = true ->
  exists line, slot_line py_repr s = Ok line /\ prefix BULLET line = true.
Proof.
  destruct s; try discriminate. intros _. unfold slot_line. simpl.
  eexists. split; [reflexivity|]. reflexivity.
Qed.

Lemma slot_line_not_dict (py_repr : JSON -> string) (s : JSON) :
  is_dict s = false -> slot_line py_repr s = Raise AttributeError.
Proof.
  intro H. unfold slot_line. rewrite py_get_not_dict by exact H. reflexivity.
Qed.

(** X-slots.  For a 200 answer that decodes to an object: no "sessions"
    entry, or a false one (null, an empty list), gives the "no slots"
    message; a non-empty list of session objects gives the header and
    one bulleted line per session, at most ten, the sessions past the
    tenth never being looked at; and one of the first ten sessions that
    is not an object turns the whole reply into the "unavailable"
    message. *)
Theorem get_cowin_slots_by_pin_sessions
        (requests_get : string -> list (string * string) -> Z -> result Response)
        (py_repr : JSON -> string) (pincode date : string)
        (r : Response) (items : list (string * JSON)) :
  requests_get (COWIN_URL pincode date) USER_AGENT TIMEOUT = Ok r ->
  status_code r = 200%Z ->
  json r = Ok (JDict items) ->
  (forall data,
      py_get (JDict items) "sessions" (JList []) = Ok data ->
      truthy data = false ->
      get_cowin_slots_by_pin requests_get py_repr pincode date = SLOT_NONE)
  /\ (forall l,
        assoc "sessions" items = Some (JList l) -> l <> [] ->
        (forall s, In s (firstn 10 l) -> is_dict s = true) ->
        exists lines,
          List.length lines = Nat.min 10 (List.length l)
          /\ Forall (fun line => prefix BULLET line = true) lines
          /\ get_cowin_slots_by_pin requests_get py_repr pincode date
             = join nl (SLOT_HEADER :: lines))
  /\ (forall l s,
        assoc "sessions" items = Some (JList l) ->
        In s (firstn 10 l) -> is_dict s = false ->
        get_cowin_slots_by_pin requests_get py_repr pincode date
        = SLOT_UNAVAILABLE).
Proof.
  intros Hget Hst Hj.
  assert (Hrun : forall data,
            py_get (JDict items) "sessions" (JList []) = Ok data ->
            get_cowin_slots_by_pin requests_get py_repr pincode date =
            try_except
              (if negb (truthy data) then Ok SLOT_NONE
               else sessions <- py_slice 10 data ;;
                    lines <- mapM (slot_line py_repr) sessions ;;
                    Ok (join nl (SLOT_HEADER :: lines)))
              SLOT_UNAVAILABLE).
  { intros data Hd. unfold get_cowin_slots_by_pin. cbv zeta.
    rewrite Hget. cbn [bind]. rewrite Hst. cbn [Z.eqb Pos.eqb negb].
    rewrite Hj. cbn [bind]. rewrite Hd. cbn [bind]. reflexivity. }
  split; [|split].
  - intros data Hd Hf. rewrite (Hrun data Hd), Hf. reflexivity.
  - intros l Hl Hne Hall.
    assert (Hd : py_get (JDict items) "sessions" (JList []) = Ok (JList l))
      by (simpl; rewrite Hl; reflexivity).
    destruct (mapM_ok (slot_line py_repr)
                (fun line => prefix BULLET line = true) (firstn 10 l))
      as (lines & Hm & Hlen & HP).
    { intros s Hs. apply slot_line_dict, Hall, Hs. }
    exists lines. rewrite length_firstn in Hlen.
    split; [exact Hlen|]. split; [exact HP|].
    rewrite (Hrun _ Hd). destruct l; [congruence|].
    cbn [truthy negb py_slice bind]. rewrite Hm. reflexivity.
  - intros l s Hl Hs Hnd.
    assert (Hd : py_get (JDict items) "sessions" (JList []) = Ok (JList l))
      by (simpl; rewrite Hl; reflexivity).
    destruct (mapM_raise (slot_line py_repr) (firstn 10 l) s AttributeError Hs
                (slot_line_not_dict py_repr s Hnd)) as (e & He).
    rewrite (Hrun _ Hd). destruct l; [destruct Hs|].
    cbn [truthy negb py_slice bind]. rewrite He. reflexivity.
Qed.

Lemma get_cowin_slots_by_pin_sessions_witness :
  get_cowin_slots_by_pin
    (answering (Ok (JDict [("sessions",
                            JList [JDict [("name", JStr "City Clinic")];
                                   JInt 7])]))
               (Raise ParseError))
    no_repr "700001" "31-08-2025"
  = SLOT_UNAVAILABLE.
Proof.
  destruct (get_cowin_slots_by_pin_sessions
              (answering (Ok (JDict [("sessions",
                                      JList [JDict [("name", JStr "City Clinic")];
                                             JInt 7])]))
                         (Raise ParseError))
              no_repr "700001" "31-08-2025" _ _ eq_refl eq_refl eq_refl)
    as (_ & _ & Hbad).
  apply (Hbad [JDict [("name", JStr "City Clinic")]; JInt 7] (JInt 7)).
  - reflexivity.
  - right. left. reflexivity.
  - reflexivity.
Defined.

(** ** The COVID summary *)

Lemma assoc_app_single (key k0 : string) (v : JSON) (items : list (string * JSON)) :
  assoc key (items ++ [(k0, v)]) =
    match assoc key items with
    | Some x => Some x
    | None => if String.eqb k0 key then Some v else None
    end.
Proof.
  induction items as [|[k x] items IH]; simpl; [reflexivity|].
  destruct (String.eqb k key); [reflexivity|exact IH].
Qed.

(** X-covid-time.  For a 200 answer that decodes to an object, the
    summary degrades to the "unavailable" message exactly when the
    "updated" entry is a true value whose conversion to a date fails (it
    is not a number, or the clock rejects it); a missing or false entry
    (null, 0) is shown as N/A and the clock is not consulted. *)
Theorem get_covid_update_india_timestamp
        (requests_get : string -> list (string * string) -> Z -> result Response)
        (py_repr : JSON -> string)
        (fromtimestamp_strftime : Q -> result string)
        (r : Response) (items : list (string * JSON)) (updated : JSON) :
  requests_get COVID_URL USER_AGENT TIMEOUT = Ok r ->
  status_code r = 200%Z ->
  json r = Ok (JDict items) ->
  py_get (JDict items) "updated" JNull = Ok updated ->
  (get_covid_update_india requests_get py_repr fromtimestamp_strftime
   = COVID_UNAVAILABLE
   <-> truthy updated = true
       /\ forall when,
            (t <- div1000 updated ;; fromtimestamp_strftime t) <> Ok when)
  /\ (truthy updated = false ->
      forall clock,
        get_covid_update_india requests_get py_repr clock
        = get_covid_update_india requests_get py_repr fromtimestamp_strftime).
Proof.
  intros Hget Hst Hj Hup.
  assert (Hrun : forall clock,
            get_covid_update_india requests_get py_repr clock =
            try_except
              (when <- (if truthy updated
                        then t <- div1000 updated ;; clock t
                        else Ok "N/A") ;;
               Ok (COVID_HEADER ++ nl ++
                   BULLET ++ " New cases today: "
                   ++ fmt py_repr (match assoc "todayCases" items with
                                   | Some v => v | None => JStr "N/A" end) ++ nl ++
                   BULLET ++ " New deaths today: "
                   ++ fmt py_repr (match assoc "todayDeaths" items with
                                   | Some v => v | None => JStr "N/A" end) ++ nl ++
                   BULLET ++ " Total cases: "
                   ++ fmt py_repr (match assoc "cases" items with
                                   | Some v => v | None => JStr "N/A" end) ++ nl ++
                   "(Last updated: " ++ when ++ ")"))
              COVID_UNAVAILABLE).
  { intro clock. unfold get_covid_update_india. cbv zeta.
    rewrite Hget. cbn [bind]. rewrite Hst. cbn [Z.eqb Pos.eqb negb].
    rewrite Hj. cbn [bind py_get]. cbn [py_get] in Hup.
    inversion Hup as [Hup']. rewrite Hup'. reflexivity. }
  split.
  - rewrite Hrun. destruct (truthy updated).
    + destruct (t <- div1000 updated ;; fromtimestamp_strftime t) as [when|e] eqn:E.
      * cbn [bind try_except]. split.
        -- intro H. discriminate H.
        -- intros [_ H]. exfalso. apply (H when). reflexivity.
      * cbn [bind try_except]. split; [|reflexivity].
        intros _. split; [reflexivity|]. intros when H. discriminate H.
    + cbn [bind try_except]. split; [intro H; discriminate H|].
      intros [H _]. discriminate H.
  - intros Hf clock. rewrite !Hrun, Hf. reflexivity.
Qed.

Lemma get_covid_update_india_timestamp_witness :
  get_covid_update_india
    (answering (Ok (JDict [("cases", JInt 45000000);
                           ("updated", JStr "yesterday")]))
               (Raise ParseError))
    no_repr no_clock
  = COVID_UNAVAILABLE.
Proof.
  destruct (get_covid_update_india_timestamp
              (answering (Ok (JDict [("cases", JInt 45000000);
                                     ("updated", JStr "yesterday")]))
                         (Raise ParseError))
              no_repr no_clock _ _ (JStr "yesterday")
              eq_refl eq_refl eq_refl eq_refl) as [[_ Hbad] _].
  apply Hbad. split; [reflexivity|]. intros when H. discriminate H.
Defined.

(** X-covid-default.  A count the payload does not hold is shown as
    N/A: the summary is the one the payload would give with the string
    "N/A" stored under the missing key. *)
Theorem get_covid_update_india_missing_field
        (py_repr : JSON -> string)
        (fromtimestamp_strftime : Q -> result string)
        (x : result Element) (items : list (string * JSON)) (key : string) :
  In key ["todayCases"; "todayDeaths"; "cases"] ->
  assoc key items = None ->
  get_covid_update_india (answering (Ok (JDict items)) x)
                         py_repr fromtimestamp_strftime
  = get_covid_update_india
      (answering (Ok (JDict (items ++ [(key, JStr "N/A")]))) x)
      py_repr fromtimestamp_strftime.
Proof.
  intros Hkey Hnone.
  unfold get_covid_update_india, answering. cbv zeta.
  cbn [bind status_code json Z.eqb Pos.eqb negb py_get].
  rewrite !assoc_app_single.
  destruct Hkey as [<-|[<-|[<-|[]]]]; rewrite Hnone;
    cbn [String.eqb Ascii.eqb Bool.eqb];
    repeat match goal with
           | |- context [match assoc ?k items with _ => _ end] =>
               destruct (assoc k items)
           end; reflexivity.
Qed.

Lemma get_covid_update_india_missing_field_witness :
  get_covid_update_india
    (answering (Ok (JDict [("cases", JStr "45M")])) (Raise ParseError))
    no_repr no_clock
  = get_covid_update_india
      (answering (Ok (JDict [("cases", JStr "45M"); ("todayCases", JStr "N/A")]))
                 (Raise ParseError))
      no_repr no_clock.
Proof.
  apply (get_covid_update_india_missing_field no_repr no_clock
           (Raise ParseError) [("cases", JStr "45M")] "todayCases").
  - left. reflexivity.
  - reflexivity.
Defined.

(** ** Text normalisation *)

Lemma is_punct_lower_char (c : ascii) : is_punct (lower_char c) = is_punct c.
Proof.
  destruct c as [b0 b1 b2 b3 b4 b5 b6 b7].
  destruct b0, b1, b2, b3, b4, b5, b6, b7; reflexivity.
Qed.

Lemma remove_punc_lower (s : string) :
  remove_punc (lower s) = lower (remove_punc s).
Proof.
  induction s as [|c s IH]; simpl; [reflexivity|].
  rewrite is_punct_lower_char. destruct (is_punct c); simpl; rewrite IH; reflexivity.
Qed.

Lemma remove_punc_idem (s : string) : remove_punc (remove_punc s) = remove_punc s.
Proof.
  induction s as [|c s IH]; simpl; [reflexivity|].
  destruct (is_punct c) eqn:E; simpl; [exact IH|]. rewrite E, IH. reflexivity.
Qed.

Lemma remove_punc_app (s t : string) :
  remove_punc (s ++ t) = remove_punc s ++ remove_punc t.
Proof.
  induction s as [|c s IH]; simpl; [reflexivity|].
  destruct (is_punct c); simpl; rewrite IH; reflexivity.
Qed.

Lemma remove_punc_all_punct (p : string) :
  all_punct p = true -> remove_punc p = "".
Proof.
  induction p as [|c p IH]; simpl; intro H; [reflexivity|].
  apply andb_true_iff in H as [Hc Hp]. rewrite Hc. apply IH, Hp.
Qed.

(** X-normalize.  For an ASCII text, the tokens [LemNormalize] gives
    depend on the text only up to case and punctuation: lowering the
    text, deleting its punctuation, or putting punctuation anywhere into
    it leaves them unchanged, whatever the tokenizer and the lemmatizer
    do. *)
Theorem LemNormalize_case_punct
        (word_tokenize : string -> list string) (lemmatize : string -> string)
        (t : string) :
  ascii_only t = true ->
  LemNormalize word_tokenize lemmatize (lower t)
  = LemNormalize word_tokenize lemmatize t
  /\ LemNormalize word_tokenize lemmatize (remove_punc t)
     = LemNormalize word_tokenize lemmatize t
  /\ (forall a p b,
        t = a ++ b -> all_punct p = true ->
        LemNormalize word_tokenize lemmatize (a ++ p ++ b)
        = LemNormalize word_tokenize lemmatize t).
Proof.
  intros _. unfold LemNormalize. split; [|split].
  - rewrite lower_idem. reflexivity.
  - rewrite remove_punc_lower, remove_punc_idem, <- remove_punc_lower.
    reflexivity.
  - intros a p b -> Hp.
    rewrite !lower_app, !remove_punc_app, !remove_punc_lower.
    rewrite (remove_punc_all_punct p Hp). reflexivity.
Qed.

Lemma LemNormalize_case_punct_witness :
  LemNormalize split (fun w => w) "What is Covid-19"
  = LemNormalize split (fun w => w) "What is Covid19".
Proof.
  destruct (LemNormalize_case_punct split (fun w => w) "What is Covid19" eq_refl)
    as (_ & _ & Hpunct).
  exact (Hpunct "What is Covid" "-" "19" eq_refl eq_refl).
Defined.

(** ** The routes *)

Lemma handle_user_message_value_str
      (requests_get : string -> list (string * string) -> Z -> result Response)
      (py_repr : JSON -> string)
      (fromtimestamp_strftime : Q -> result string)
      (tfidf_cosine : list string -> string -> result (list Q))
      (argsort : list Q -> list nat) (rnd : nat)
      (fp : list (string * string)) (s : string) :
  handle_user_message_value requests_get py_repr fromtimestamp_strftime
                            tfidf_cosine argsort rnd fp (JStr s)
  = handle_user_message requests_get py_repr fromtimestamp_strftime
                        tfidf_cosine argsort rnd fp s.
Proof.
  unfold handle_user_message_value, handle_user_message. simpl.
  destruct (nonempty s); reflexivity.
Qed.

(** X-json-source.  [get_reply] takes the message from the JSON body
    whenever the body decodes to an object, and then never looks at the
    form: an object without "message" is answered with the prompt.  Only
    when the body does not decode, or decodes to something that is not an
    object, is the form field "message" routed, and the prompt returned
    when that field is missing too. *)
Theorem get_reply_message_source
        (requests_get : string -> list (string * string) -> Z -> result Response)
        (py_repr : JSON -> string)
        (fromtimestamp_strftime : Q -> result string)
        (tfidf_cosine : list string -> string -> result (list Q))
        (argsort : list Q -> list nat) (rnd : nat)
        (fp : list (string * string)) (request : Request) :
  (forall items,
      get_json request = Ok (JDict items) ->
      (forall fields,
          get_reply requests_get py_repr fromtimestamp_strftime tfidf_cosine
                    argsort rnd fp
                    {| get_json := get_json request; form := fields |}
          = get_reply requests_get py_repr fromtimestamp_strftime tfidf_cosine
                      argsort rnd fp request)
      /\ (assoc "message" items = None ->
          get_reply requests_get py_repr fromtimestamp_strftime tfidf_cosine
                    argsort rnd fp request
          = Ok (JDict [("reply", JStr PROMPT)])))
  /\ ((exists e, get_json request = Raise e)
      \/ (exists j, get_json request = Ok j /\ is_dict j = false) ->
      get_reply requests_get py_repr fromtimestamp_strftime tfidf_cosine
                argsort rnd fp request
      = (reply <- handle_user_message requests_get py_repr
                    fromtimestamp_strftime tfidf_cosine argsort rnd fp
                    (form_get (form request) "message" "") ;;
         Ok (JDict [("reply", JStr reply)]))
      /\ (form_get (form request) "message" "" = "" ->
          get_reply requests_get py_repr fromtimestamp_strftime tfidf_cosine
                    argsort rnd fp request
          = Ok (JDict [("reply", JStr PROMPT)]))).
Proof.
  split.
  - intros items Hj. split.
    + intro fields. unfold get_reply. cbn [get_json form]. rewrite Hj. reflexivity.
    + intro Hnone. unfold get_reply. rewrite Hj. cbn [bind py_get].
      rewrite Hnone. reflexivity.
  - intro Hbad.
    assert (Hmsg : try_except
                     (payload <- get_json request ;;
                      py_get payload "message" (JStr ""))
                     (JStr (form_get (form request) "message" ""))
                   = JStr (form_get (form request) "message" "")).
    { destruct Hbad as [(e & He)|(j & Hj & Hd)].
      - rewrite He. reflexivity.
      - rewrite Hj. cbn [bind]. rewrite py_get_not_dict by exact Hd. reflexivity. }
    assert (Hrun : get_reply requests_get py_repr fromtimestamp_strftime
                     tfidf_cosine argsort rnd fp request
                   = (reply <- handle_user_message requests_get py_repr
                                 fromtimestamp_strftime tfidf_cosine argsort
                                 rnd fp (form_get (form request) "message" "") ;;
                      Ok (JDict [("reply", JStr reply)]))).
    { unfold get_reply. cbv zeta. rewrite Hmsg, handle_user_message_value_str.
      reflexivity. }
    split; [exact Hrun|]. intro Hempty. rewrite Hrun, Hempty. reflexivity.
Qed.

Lemma get_reply_message_source_witness :
  get_reply offline no_repr no_clock no_scores argsort_stable 0 demo_pairs
            {| get_json := Ok (JList [JStr "hello"]);
               form := [("message", "hello")] |}
  = Ok (JDict [("reply",
                JStr "Hello! Ask me about symptoms, prevention, vaccines, or outbreaks.")]).
Proof.
  destruct (get_reply_message_source offline no_repr no_clock no_scores
              argsort_stable 0 demo_pairs
              {| get_json := Ok (JList [JStr "hello"]);
                 form := [("message", "hello")] |}) as [_ Hform].
  destruct Hform as [Hrun _].
  - right. exists (JList [JStr "hello"]). split; reflexivity.
  - exact Hrun.
Defined.

(** X-json-value.  When the JSON body holds under "message" a value
    that is not a string, [get_reply] answers a false value (null, 0,
    false, an empty list) with the prompt and lets an [AttributeError]
    escape for a true one (a number, a non-empty list or object). *)
Theorem get_reply_non_string_message
        (requests_get : string -> list (string * string) -> Z -> result Response)
        (py_repr : JSON -> string)
        (fromtimestamp_strftime : Q -> result string)
        (tfidf_cosine : list string -> string -> result (list Q))
        (argsort : list Q -> list nat) (rnd : nat)
        (fp : list (string * string)) (request : Request)
        (items : list (string * JSON)) (v : JSON) :
  get_json request = Ok (JDict items) ->
  assoc "message" items = Some v ->
  (forall s, v <> JStr s) ->
  get_reply requests_get py_repr fromtimestamp_strftime tfidf_cosine
            argsort rnd fp request
  = if truthy v then Raise AttributeError
    else Ok (JDict [("reply", JStr PROMPT)]).
Proof.
  intros Hj Hv Hns. unfold get_reply. cbv zeta.
  rewrite Hj. cbn [bind py_get try_except]. rewrite Hv.
  cbn [try_except]. unfold handle_user_message_value.
  destruct (truthy v) eqn:Ht; cbn [negb]; [|reflexivity].
  destruct v; try reflexivity. exfalso. apply (Hns s). reflexivity.
Qed.

Lemma get_reply_non_string_message_witness :
  get_reply offline no_repr no_clock no_scores argsort_stable 0 demo_pairs
            {| get_json := Ok (JDict [("message", JInt 42)]); form := [] |}
  = Raise AttributeError.
Proof.
  apply (get_reply_non_string_message offline no_repr no_clock no_scores
           argsort_stable 0 demo_pairs
           {| get_json := Ok (JDict [("message", JInt 42)]); form := [] |}
           [("message", JInt 42)] (JInt 42)).
  - reflexivity.
  - reflexivity.
  - intros s H. discriminate H.
Defined.

(** X-route-shape.  What the two routes hand back on success: [get_reply]
    a document with the one key "reply" and a non-empty string under it,
    [whatsapp_reply] the TwiML of a non-empty reply, which is the reply of
    the router to the form field "Body" (to the empty message, and so the
    prompt, when the field is missing). *)
Theorem routes_reply_shape
        (requests_get : string -> list (string * string) -> Z -> result Response)
        (py_repr : JSON -> string)
        (fromtimestamp_strftime : Q -> result string)
        (tfidf_cosine : list string -> string -> result (list Q))
        (argsort : list Q -> list nat) (rnd : nat)
        (twiml : string -> string)
        (fp : list (string * string)) (request : Request) :
  (forall doc,
      get_reply requests_get py_repr fromtimestamp_strftime tfidf_cosine
                argsort rnd fp request = Ok doc ->
      exists reply, doc = JDict [("reply", JStr reply)] /\ reply <> "")
  /\ (forall body,
        whatsapp_reply requests_get py_repr fromtimestamp_strftime tfidf_cosine
                       argsort rnd twiml fp request = Ok body ->
        exists reply,
          body = twiml reply /\ reply <> ""
          /\ handle_user_message requests_get py_repr fromtimestamp_strftime
                                 tfidf_cosine argsort rnd fp
                                 (form_get (form request) "Body" "")
             = Ok reply)
  /\ (form_get (form request) "Body" "" = "" ->
      whatsapp_reply requests_get py_repr fromtimestamp_strftime tfidf_cosine
                     argsort rnd twiml fp request = Ok (twiml PROMPT)).
Proof.
  split; [|split].
  - intros doc H. unfold get_reply in H. cbv zeta in H.
    destruct (handle_user_message_value _ _ _ _ _ _ _ _) as [reply|e] eqn:E;
      [|discriminate H].
    cbn [bind] in H. inversion H; subst doc. exists reply. split; [reflexivity|].
    unfold handle_user_message_value in E.
    destruct (negb (truthy _)).
    + inversion E. discriminate.
    + destruct (try_except _ _); try discriminate E.
      apply (handle_user_message_Ok_nonempty _ _ _ _ _ _ _ _ _ E).
  - intros body H. unfold whatsapp_reply in H. cbv zeta in H.
    destruct (handle_user_message _ _ _ _ _ _ _ _) as [reply|e] eqn:E;
      [|discriminate H].
    cbn [bind] in H. inversion H; subst body. exists reply.
    split; [reflexivity|]. split; [|reflexivity].
    apply (handle_user_message_Ok_nonempty _ _ _ _ _ _ _ _ _ E).
  - intro Hempty. unfold whatsapp_reply. cbv zeta. rewrite Hempty. reflexivity.
Qed.

Lemma routes_reply_shape_witness :
  exists reply,
    "<Response><Message>Please type your question.</Message></Response>"
    = "<Response><Message>" ++ reply ++ "</Message></Response>"
    /\ reply <> ""
    /\ handle_user_message offline no_repr no_clock no_scores argsort_stable 0
                           demo_pairs (form_get [("From", "whatsapp:+1")] "Body" "")
       = Ok reply.
Proof.
  destruct (routes_reply_shape offline no_repr no_clock no_scores argsort_stable 0
              (fun reply => "<Response><Message>" ++ reply
                            ++ "</Message></Response>")
              demo_pairs
              {| get_json := Raise ValueError;
                 form := [("From", "whatsapp:+1")] |}) as (_ & Hwa & _).
  apply Hwa. reflexivity.
Defined.

(** ** The router without a corpus *)

(** X-no-corpus.  When the FAQ file is missing, the router still
    answers every message: it never raises, whatever the libraries do,
    and a message that gets past the keyword branches is answered with
    the apology. *)
Theorem handle_user_message_missing_faq
        (requests_get : string -> list (string * string) -> Z -> result Response)
        (py_repr : JSON -> string)
        (fromtimestamp_strftime : Q -> result string)
        (tfidf_cosine : list string -> string -> result (list Q))
        (argsort : list Q -> list nat) (rnd : nat) (msg : string) :
  (exists reply,
      handle_user_message requests_get py_repr fromtimestamp_strftime
                          tfidf_cosine argsort rnd (load_faq None) msg
      = Ok reply)
  /\ (reaches_faq rnd msg = true ->
      handle_user_message requests_get py_repr fromtimestamp_strftime
                          tfidf_cosine argsort rnd (load_faq None) msg
      = Ok APOLOGY).
Proof.
  assert (Hfaq : reaches_faq rnd msg = true ->
                 handle_user_message requests_get py_repr fromtimestamp_strftime
                   tfidf_cosine argsort rnd (load_faq None) msg = Ok APOLOGY).
  { intro R. rewrite (handle_user_message_faq_branch _ _ _ _ _ _ _ _ R).
    reflexivity. }
  split; [|exact Hfaq].
  destruct (reaches_faq rnd msg) eqn:R.
  - exists APOLOGY. apply Hfaq. reflexivity.
  - destruct (handle_user_message_keyword_branch requests_get py_repr
                fromtimestamp_strftime tfidf_cosine argsort rnd
                (load_faq None) msg R) as (reply & Hr & _).
    exists reply. exact Hr.
Qed.
